(** * Rate limiters: fixed window counter, token bucket, leaking bucket

    A shallow embedding of [rate_limiter/fixed_window_counter.py],
    [rate_limiter/token_bucket.py] and [rate_limiter/leaking_bucket.py],
    and the properties of the three admission algorithms.

    Conventions of the embedding.

    - Numbers.  Clock readings, rates, token levels and the window size are
      rationals ([Q]); integer counters and the quantities compared with
      them are [Z].  The modules [FixedWindowCounter], [TokenBucket] and
      [LeakingBucket] compute exactly.  Python computes on floats in
      binary64; where a property depends on the rounding, it is stated on
      [LeakingBucket64], whose drain step rounds each operation with
      [Binary64.round], or for whole numbers, on which binary64 is exact.
    - Clock.  Each [time.time()] / [time.monotonic()] call of the source is
      an explicit argument of the embedded method, in the order in which the
      source performs the reads.
    - Objects and exceptions.  A method is a function from the object before
      the call to the completion of the call (a returned value or a raised
      exception) paired with the object as the call leaves it, so an
      attribute assigned before an exception is raised stays assigned.     *)

From Stdlib Require Import ZArith QArith Qround List Bool Lia Lqa.
Import ListNotations.
Local Open Scope Q_scope.

(** ** Python semantics used by the three classes *)

Module Py.

Inductive exception : Set :=
| ZeroDivisionError.

Inductive outcome (A : Type) : Type :=
| Returned (a : A)
| Raised (e : exception).
Arguments Returned {A} a.
Arguments Raised {A} e.

(** A method of an object whose attributes form the record [S]. *)
Definition method (S A : Type) : Type := S -> outcome A * S.

Definition ret {S A : Type} (a : A) : method S A :=
  fun self => (Returned a, self).

Definition bind {S A B : Type} (m : method S A) (k : A -> method S B)
  : method S B :=
  fun self =>
    match m self with
    | (Returned a, self') => k a self'
    | (Raised e, self') => (Raised e, self')
    end.

Definition get {S : Type} : method S S :=
  fun self => (Returned self, self).

Definition modify {S : Type} (f : S -> S) : method S unit :=
  fun self => (Returned tt, f self).

Definition lift {S A : Type} (o : outcome A) : method S A :=
  fun self => (o, self).

(** [int(x)]: truncation toward zero. *)
Definition int (x : Q) : Z := Z.quot (Qnum x) (Zpos (Qden x)).

(** [a // b] on floats: the floor of the quotient, [ZeroDivisionError]
    when the divisor is zero. *)
Definition floordiv (a b : Q) : outcome Q :=
  if Qeq_bool b 0 then Raised ZeroDivisionError
  else Returned (inject_Z (Qfloor (a / b))).

(** [a / b]: true division, [ZeroDivisionError] when the divisor is zero. *)
Definition truediv (a b : Q) : outcome Q :=
  if Qeq_bool b 0 then Raised ZeroDivisionError
  else Returned (a / b).

(** [a < b] and [a >= b]. *)
Definition lt (a b : Q) : bool := negb (Qle_bool b a).
Definition ge (a b : Q) : bool := Qle_bool b a.

(** [min(a, b)]: the second argument replaces the first only when it is
    strictly smaller. *)
Definition min (a b : Q) : Q := if lt b a then b else a.

End Py.

Import Py.

Declare Scope py_scope.
Delimit Scope py_scope with py.
Notation "x <- m ;; k" := (Py.bind m (fun x => k))
  (at level 61, m at next level, right associativity) : py_scope.
Notation "m ;; k" := (Py.bind m (fun _ => k))
  (at level 61, right associativity) : py_scope.
Local Open Scope py_scope.

(** ** fixed_window_counter.py *)

Module FixedWindowCounter.

Record t : Type := mk {
  window_size : Q;
  request_threshold : Z;
  current_window_start : Q;
  request_count : Z
}.

Definition set_current_window_start (v : Q) (self : t) : t :=
  mk (window_size self) (request_threshold self) v (request_count self).

Definition set_request_count (v : Z) (self : t) : t :=
  mk (window_size self) (request_threshold self)
     (current_window_start self) v.

(** [int(time.time() // self.window_size) * self.window_size];
    [now] is the reading of [time.time()]. *)
Definition _get_current_window (now : Q) : method t Q :=
  self <- get ;;
  q <- lift (floordiv now (window_size self)) ;;
  ret (inject_Z (int q) * window_size self).

(** The constructor.  [_get_current_window] runs on the object under
    construction, of which only [window_size] and [request_threshold] are
    assigned; the two later attributes are placeholders until then. *)
Definition __init__ (window_size : Q) (request_threshold : Z) (now : Q)
  : outcome t :=
  let self := mk window_size request_threshold 0 0 in
  match _get_current_window now self with
  | (Returned w, self) =>
      Returned (set_request_count 0 (set_current_window_start w self))
  | (Raised e, _) => Raised e
  end.

(** [allow_request] reads the clock twice: [current_time] (never used
    afterwards) and then [now] inside [_get_current_window]. *)
Definition allow_request (current_time now : Q) : method t bool :=
  window <- _get_current_window now ;;
  self <- get ;;
  (if negb (Qeq_bool window (current_window_start self))
   then modify (set_current_window_start window) ;;
        modify (set_request_count 0)
   else ret tt) ;;
  self <- get ;;
  if (request_count self <? request_threshold self)%Z
  then modify (set_request_count (request_count self + 1)) ;;
       ret true
  else ret false.

(** Successive calls on one object, one pair of clock readings per call. *)
Fixpoint calls (readings : list (Q * Q)) (self : t)
  : list (outcome bool) * t :=
  match readings with
  | [] => ([], self)
  | (current_time, now) :: rest =>
      let (r, self') := allow_request current_time now self in
      let (rs, self'') := calls rest self' in
      (r :: rs, self'')
  end.

End FixedWindowCounter.

(** ** token_bucket.py *)

Module TokenBucket.

Record t : Type := mk {
  bucket_size : Q;
  refill_rate : Q;
  tokens : Q;
  last_refill_time : Q
}.

Definition set_tokens (v : Q) (self : t) : t :=
  mk (bucket_size self) (refill_rate self) v (last_refill_time self).

Definition set_last_refill_time (v : Q) (self : t) : t :=
  mk (bucket_size self) (refill_rate self) (tokens self) v.

Definition __init__ (bucket_size refill_rate : Q) (now : Q) : outcome t :=
  Returned (mk bucket_size refill_rate bucket_size now).

Definition _refill (now : Q) : method t unit :=
  self <- get ;;
  let elapsed_time := now - last_refill_time self in
  let new_tokens := elapsed_time * refill_rate self in
  modify (set_tokens (Py.min (bucket_size self) (tokens self + new_tokens))) ;;
  modify (set_last_refill_time now).

(** The source names the argument [tokens]; it is [cost] here, the
    attribute keeping the name. *)
Definition allow_request (now : Q) (cost : Q) : method t bool :=
  _refill now ;;
  self <- get ;;
  if ge (tokens self) cost
  then modify (set_tokens (tokens self - cost)) ;;
       ret true
  else ret false.

(** Successive calls, each with its clock reading and its cost. *)
Fixpoint calls (requests : list (Q * Q)) (self : t)
  : list (outcome bool) * t :=
  match requests with
  | [] => ([], self)
  | (now, cost) :: rest =>
      let (r, self') := allow_request now cost self in
      let (rs, self'') := calls rest self' in
      (r :: rs, self'')
  end.

(** The same run, keeping after each call its result and the token level
    it leaves. *)
Fixpoint trace (requests : list (Q * Q)) (self : t)
  : list (outcome bool * Q) :=
  match requests with
  | [] => []
  | (now, cost) :: rest =>
      let (r, self') := allow_request now cost self in
      (r, tokens self') :: trace rest self'
  end.

End TokenBucket.

(** ** leaking_bucket.py *)

Module LeakingBucket.

Record t : Type := mk {
  bucket_size : Z;
  outflow_rate : Q;
  queue : list Q;
  last_processed_time : Q
}.

Definition set_queue (v : list Q) (self : t) : t :=
  mk (bucket_size self) (outflow_rate self) v (last_processed_time self).

Definition set_last_processed_time (v : Q) (self : t) : t :=
  mk (bucket_size self) (outflow_rate self) (queue self) v.

Definition __init__ (bucket_size : Z) (outflow_rate : Q) (now : Q)
  : outcome t :=
  Returned (mk bucket_size outflow_rate [] now).

(** The loop [for _ in range(n): if self.queue: popleft() else: break]. *)
Fixpoint popleft_loop (n : nat) (queue : list Q) : list Q :=
  match n with
  | O => queue
  | S n' =>
      match queue with
      | [] => queue
      | _ :: rest => popleft_loop n' rest
      end
  end.

Definition _process_queue (now : Q) : method t unit :=
  self <- get ;;
  let elapsed_time := now - last_processed_time self in
  let request_to_process := int (elapsed_time * outflow_rate self) in
  modify (set_queue (popleft_loop (Z.to_nat request_to_process) (queue self))) ;;
  step <- lift (truediv (inject_Z request_to_process) (outflow_rate self)) ;;
  self <- get ;;
  modify (set_last_processed_time (last_processed_time self + step)).

(** [add_request] reads the clock in [_process_queue] ([now]) and again
    for the enqueued timestamp ([stamp]). *)
Definition add_request (now stamp : Q) : method t bool :=
  _process_queue now ;;
  self <- get ;;
  if (Z.of_nat (length (queue self)) <? bucket_size self)%Z
  then modify (set_queue (queue self ++ [stamp])) ;;
       ret true
  else ret false.

Fixpoint calls (readings : list (Q * Q)) (self : t)
  : list (outcome bool) * t :=
  match readings with
  | [] => ([], self)
  | (now, stamp) :: rest =>
      let (r, self') := add_request now stamp self in
      let (rs, self'') := calls rest self' in
      (r :: rs, self'')
  end.

End LeakingBucket.

(** ** Binary64 arithmetic

    Python floats are IEEE 754 binary64 numbers, and each of [+], [-], [*]
    and [/] returns the binary64 number nearest to the exact result, ties
    going to the even significand.  [round] is that rounding on the
    rationals: 53 bits of significand, exponents from [-1074] up.  Results
    beyond the largest binary64 number are not turned into infinities. *)

Module Binary64.

(** The integer nearest to [n / d], ties to even ([n >= 0], [d > 0]). *)
Definition nearest_even (n d : Z) : Z :=
  let q := (n / d)%Z in
  let r := (n mod d)%Z in
  match (2 * r ?= d)%Z with
  | Lt => q
  | Gt => (q + 1)%Z
  | Eq => if Z.even q then q else (q + 1)%Z
  end.

(** [a / d] scaled by [2 ^ (- e)], as a numerator and a denominator. *)
Definition scaled_num (a e : Z) : Z :=
  if (e <? 0)%Z then (a * 2 ^ (- e))%Z else a.

Definition scaled_den (d e : Z) : Z :=
  if (e <? 0)%Z then d else (d * 2 ^ e)%Z.

(** The exponent [e] of the last place of [a / d]: the one that puts
    [a / d / 2 ^ e] in [[2^52, 2^53)], and [-1074] for the subnormals. *)
Definition exponent (a d : Z) : Z :=
  let e0 := (Z.log2 a - Z.log2 d - 52)%Z in
  let e := if (scaled_num a e0 / scaled_den d e0 <? 2 ^ 52)%Z
           then (e0 - 1)%Z else e0 in
  Z.max e (-1074).

Definition round (x : Q) : Q :=
  let n := Qnum x in
  let d := Z.pos (Qden x) in
  if (n =? 0)%Z then 0
  else
    let a := Z.abs n in
    let e := exponent a d in
    let m := (Z.sgn n * nearest_even (scaled_num a e) (scaled_den d e))%Z in
    Qred (if (e <? 0)%Z then Qmake m (Z.to_pos (2 ^ (- e)))
          else inject_Z (m * 2 ^ e)).

End Binary64.

(** ** leaking_bucket.py in binary64

    The drain step again, with each of its four floating-point operations
    rounded as the source computes it: the difference [now -
    self.last_processed_time], the product with [self.outflow_rate], the
    quotient [request_to_process / self.outflow_rate] and the sum stored
    back.  The record, the loop and the constructor, which compute nothing,
    are those of [LeakingBucket]. *)

Module LeakingBucket64.

Import LeakingBucket.

Definition _process_queue (now : Q) : method t unit :=
  self <- get ;;
  let elapsed_time := Binary64.round (now - last_processed_time self) in
  let request_to_process :=
    int (Binary64.round (elapsed_time * outflow_rate self)) in
  modify (set_queue (popleft_loop (Z.to_nat request_to_process) (queue self))) ;;
  step <- lift (truediv (inject_Z request_to_process) (outflow_rate self)) ;;
  self <- get ;;
  modify (set_last_processed_time
            (Binary64.round (last_processed_time self + Binary64.round step))).

Definition add_request (now stamp : Q) : method t bool :=
  _process_queue now ;;
  self <- get ;;
  if (Z.of_nat (length (queue self)) <? bucket_size self)%Z
  then modify (set_queue (queue self ++ [stamp])) ;;
       ret true
  else ret false.

Fixpoint calls (readings : list (Q * Q)) (self : t)
  : list (outcome bool) * t :=
  match readings with
  | [] => ([], self)
  | (now, stamp) :: rest =>
      let (r, self') := add_request now stamp self in
      let (rs, self'') := calls rest self' in
      (r :: rs, self'')
  end.

(** None of the four operations of the drain step at [now] rounds: each
    returns the exact result of its operands. *)
Definition exact_drain (now : Q) (self : t) : Prop :=
  let elapsed_time := Binary64.round (now - last_processed_time self) in
  let product := Binary64.round (elapsed_time * outflow_rate self) in
  let step := Binary64.round (inject_Z (int product) / outflow_rate self) in
  elapsed_time == now - last_processed_time self /\
  product == elapsed_time * outflow_rate self /\
  step == inject_Z (int product) / outflow_rate self /\
  Binary64.round (last_processed_time self + step)
    == last_processed_time self + step.

End LeakingBucket64.

(** ** Overlapping calls of [FixedWindowCounter.allow_request]

    The source takes no lock.  Calls made from several threads on one
    object are modelled statement by statement: a thread is at a line of
    [allow_request], a step runs the statement of that line on the shared
    object, and a schedule says which thread takes the next step. *)

Module FixedWindowCounterThreads.

Import FixedWindowCounter.

Inductive line : Type :=
| Line43                (* current_time = time.time() *)
| Line44                (* current_window_start = self._get_current_window() *)
| Line46 (window : Q)   (* if current_window_start != self.current_window_start: *)
| Line47 (window : Q)   (*     self.current_window_start = current_window_start *)
| Line48                (*     self.request_count = 0 *)
| Line50                (* if self.request_count < self.request_threshold: *)
| Line51                (*     self.request_count += 1 *)
| Line52                (*     return True *)
| Line53                (* return False *)
| Done (r : outcome bool).

(** A thread inside one call: its two clock readings and where it is. *)
Record thread : Type := mkthread {
  current_time : Q;
  now : Q;
  at_line : line
}.

Definition spawn (reading : Q * Q) : thread :=
  mkthread (fst reading) (snd reading) Line43.

Definition goto (l : line) (th : thread) : thread :=
  mkthread (current_time th) (now th) l.

Definition step (th : thread) (self : t) : thread * t :=
  match at_line th with
  | Line43 => (goto Line44 th, self)
  | Line44 =>
      match _get_current_window (now th) self with
      | (Returned w, self') => (goto (Line46 w) th, self')
      | (Raised e, self') => (goto (Done (Raised e)) th, self')
      end
  | Line46 w =>
      if negb (Qeq_bool w (current_window_start self))
      then (goto (Line47 w) th, self)
      else (goto Line50 th, self)
  | Line47 w => (goto Line48 th, set_current_window_start w self)
  | Line48 => (goto Line50 th, set_request_count 0 self)
  | Line50 =>
      if (request_count self <? request_threshold self)%Z
      then (goto Line51 th, self)
      else (goto Line53 th, self)
  | Line51 => (goto Line52 th, set_request_count (request_count self + 1) self)
  | Line52 => (goto (Done (Returned true)) th, self)
  | Line53 => (goto (Done (Returned false)) th, self)
  | Done r => (th, self)
  end.

(** [n] consecutive steps of one thread, no other thread in between. *)
Fixpoint steps (n : nat) (th : thread) (self : t) : thread * t :=
  match n with
  | O => (th, self)
  | S n' => let (th', self') := step th self in steps n' th' self'
  end.

Fixpoint update {A : Type} (i : nat) (x : A) (l : list A) : list A :=
  match l, i with
  | [], _ => []
  | _ :: rest, O => x :: rest
  | y :: rest, S i' => y :: update i' x rest
  end.

(** One step of thread [i]; a schedule entry naming no thread is skipped. *)
Definition step_thread (i : nat) (cfg : list thread * t) : list thread * t :=
  let (threads, self) := cfg in
  match nth_error threads i with
  | Some th => let (th', self') := step th self in (update i th' threads, self')
  | None => cfg
  end.

Fixpoint run_schedule (schedule : list nat) (cfg : list thread * t)
  : list thread * t :=
  match schedule with
  | [] => cfg
  | i :: rest => run_schedule rest (step_thread i cfg)
  end.

(** The longest path through [allow_request] has eight statements. *)
Definition call_length : nat := 8.

(** The schedule that lets threads [i], [i+1], ..., [i+n-1] run one after
    the other, each to the end of its call. *)
Fixpoint serial (i n : nat) : list nat :=
  match n with
  | O => []
  | S n' => repeat i call_length ++ serial (S i) n'
  end.

Definition results (threads : list thread) : list line :=
  map at_line threads.

End FixedWindowCounterThreads.

(** ** Vocabulary of the properties *)

(** The number of calls of a run that returned [True]. *)
Fixpoint admissions (results : list (outcome bool)) : nat :=
  match results with
  | [] => O
  | Returned true :: rest => S (admissions rest)
  | _ :: rest => admissions rest
  end.

(** The clock never goes back: every reading is at least the one before,
    the first at least [start]. *)
Fixpoint monotonic (start : Q) (clock : list Q) : Prop :=
  match clock with
  | [] => True
  | now :: rest => start <= now /\ monotonic now rest
  end.

(** The cost of the calls of a run that returned [True], summed. *)
Fixpoint admitted_cost (requests : list (Q * Q))
    (results : list (outcome bool)) : Q :=
  match requests, results with
  | (_, cost) :: requests', Returned true :: results' =>
      cost + admitted_cost requests' results'
  | _ :: requests', _ :: results' => admitted_cost requests' results'
  | _, _ => 0
  end.

(** Runs whose numbers are whole: requests of a token bucket with whole
    clock readings and costs, calls of a leaking bucket with whole clock
    readings (the enqueued stamps are stored, never computed with). *)
Definition whole_requests (requests : list (Z * Z)) : list (Q * Q) :=
  map (fun r => (inject_Z (fst r), inject_Z (snd r))) requests.

Definition whole_readings (readings : list (Z * Q)) : list (Q * Q) :=
  map (fun r => (inject_Z (fst r), snd r)) readings.

(** * Properties *)

(** ** Python arithmetic *)

Lemma int_inject_Z (z : Z) : int (inject_Z z) = z.
Proof. unfold int; simpl. apply Z.quot_1_r. Qed.

Lemma int_floor (x : Q) : 0 <= x -> int x = Qfloor x.
Proof.
  destruct x as [n d]; unfold Qle, int, Qfloor; simpl; intros H.
  apply Z.quot_div_nonneg; lia.
Qed.

Lemma Qfloor_between (x : Q) (k : Z) :
  inject_Z k <= x -> x < inject_Z k + 1 -> Qfloor x = k.
Proof.
  intros Hlo Hhi. apply Z.le_antisymm.
  - apply Z.lt_succ_r. rewrite Zlt_Qlt. unfold Z.succ. rewrite inject_Z_plus.
    apply Qle_lt_trans with x; [apply Qfloor_le | exact Hhi].
  - rewrite <- (Qfloor_Z k). apply Qfloor_resp_le. exact Hlo.
Qed.

Lemma Qfloor_window (W t : Q) (k : Z) :
  0 < W -> inject_Z k * W <= t -> t < inject_Z k * W + W ->
  Qfloor (t / W) = k.
Proof.
  intros HW Hlo Hhi. apply Qfloor_between.
  - apply Qle_shift_div_l; assumption.
  - apply Qlt_shift_div_r; [assumption|]. lra.
Qed.

Lemma Qeq_bool_pos (W : Q) : 0 < W -> Qeq_bool W 0 = false.
Proof.
  intros HW. destruct (Qeq_bool W 0) eqn:E; [|reflexivity].
  apply Qeq_bool_eq in E. lra.
Qed.

Lemma lt_false_iff (a b : Q) : lt a b = false <-> b <= a.
Proof.
  unfold lt. rewrite negb_false_iff. apply Qle_bool_iff.
Qed.

Lemma lt_true_iff (a b : Q) : lt a b = true <-> a < b.
Proof.
  unfold lt. rewrite negb_true_iff. split; intros H.
  - apply Qnot_le_lt. intros Hle. apply Qle_bool_iff in Hle. congruence.
  - destruct (Qle_bool b a) eqn:E; [|reflexivity].
    apply Qle_bool_iff in E. lra.
Qed.

Lemma min_le_l (a b : Q) : Py.min a b <= a.
Proof.
  unfold Py.min. destruct (lt b a) eqn:E.
  - apply lt_true_iff in E. lra.
  - lra.
Qed.

Lemma min_le_r (a b : Q) : Py.min a b <= b.
Proof.
  unfold Py.min. destruct (lt b a) eqn:E.
  - lra.
  - apply lt_false_iff in E. exact E.
Qed.

Lemma min_glb (a b c : Q) : c <= a -> c <= b -> c <= Py.min a b.
Proof. unfold Py.min. destruct (lt b a); auto. Qed.

(** ** Fixed window counter *)

Section FixedWindowCounterFacts.

Import FixedWindowCounter.

Lemma _get_current_window_eq (now : Q) (self : t) :
  Qeq_bool (window_size self) 0 = false ->
  _get_current_window now self =
    (Returned (inject_Z (Qfloor (now / window_size self)) * window_size self),
     self).
Proof.
  intros HW. unfold _get_current_window, bind, get, lift, ret, floordiv.
  rewrite HW, int_inject_Z. reflexivity.
Qed.

(** [allow_request] as one case analysis: the rollover, then the test. *)
Lemma allow_request_eq (current_time now : Q) (self : t) :
  Qeq_bool (window_size self) 0 = false ->
  allow_request current_time now self =
    let w := inject_Z (Qfloor (now / window_size self)) * window_size self in
    let rolled :=
      if Qeq_bool w (current_window_start self) then self
      else set_request_count 0 (set_current_window_start w self) in
    if (request_count rolled <? request_threshold rolled)%Z
    then (Returned true, set_request_count (request_count rolled + 1) rolled)
    else (Returned false, rolled).
Proof.
  intros HW. unfold allow_request, bind.
  rewrite (_get_current_window_eq now self HW). cbn [get].
  destruct (Qeq_bool _ (current_window_start self)); cbn;
    match goal with |- context [(?a <? ?b)%Z] => destruct (a <? b)%Z end;
    reflexivity.
Qed.

Lemma __init___eq (W : Q) (T : Z) (now : Q) :
  0 < W ->
  __init__ W T now = Returned (mk W T (inject_Z (Qfloor (now / W)) * W) 0).
Proof.
  intros HW. unfold __init__.
  rewrite _get_current_window_eq by (apply Qeq_bool_pos; exact HW).
  reflexivity.
Qed.

(** What every call preserves. *)
Lemma calls_invariant (readings : list (Q * Q)) :
  forall self : t,
    0 < window_size self -> (0 <= request_count self)%Z ->
    let self' := snd (calls readings self) in
    window_size self' = window_size self /\
    request_threshold self' = request_threshold self /\
    (0 <= request_count self')%Z.
Proof.
  induction readings as [|[ct now] rest IH]; intros self HW Hc; cbn.
  - auto.
  - rewrite allow_request_eq by (apply Qeq_bool_pos; exact HW).
    destruct self as [W T cws c]; cbn in *.
    destruct (Qeq_bool _ cws); cbn;
      match goal with |- context [(?a <? ?b)%Z] => destruct (a <? b)%Z end;
      match goal with |- context [calls rest ?s] =>
        specialize (IH s); destruct (calls rest s) as [rs s'] end;
      cbn in *; apply IH; (assumption || lia).
Qed.

(** Admissions left to a limiter for the window starting at [k * W]. *)
Lemma admissions_in_window (k : Z) (readings : list (Q * Q)) :
  forall self : t,
    0 < window_size self -> (0 <= request_count self)%Z ->
    Forall (fun r => inject_Z k * window_size self <= snd r
                     /\ snd r < inject_Z k * window_size self + window_size self)
           readings ->
    (Z.of_nat (admissions (fst (calls readings self))) <=
     if Qeq_bool (inject_Z k * window_size self) (current_window_start self)
     then Z.max 0 (request_threshold self - request_count self)
     else Z.max 0 (request_threshold self))%Z.
Proof.
  induction readings as [|[ct now] rest IH]; intros self HW Hc Hin.
  - cbn. destruct (Qeq_bool _ _); lia.
  - inversion Hin as [|r l [Hlo Hhi] Hrest]; subst. cbn [snd] in Hlo, Hhi.
    cbn [calls].
    rewrite allow_request_eq by (apply Qeq_bool_pos; exact HW).
    rewrite (Qfloor_window _ _ k HW Hlo Hhi).
    destruct self as [W T cws c]; cbn in *.
    destruct (Qeq_bool (inject_Z k * W) cws) eqn:E; cbn;
      match goal with |- context [(?a <? ?b)%Z] =>
        destruct (a <? b)%Z eqn:Et end;
      match goal with |- context [calls rest ?s] =>
        specialize (IH s); destruct (calls rest s) as [rs s'] end;
      cbn in *; try rewrite E in IH; try rewrite Qeq_bool_refl in IH;
      specialize (IH HW); try apply Z.ltb_lt in Et; try apply Z.ltb_ge in Et;
      (lapply IH; [clear IH; intros IH; specialize (IH Hrest) | lia]); lia.
Qed.

(** Calls at one instant, once the limiter is in that instant's window or
    has admitted nothing yet: as many admissions as the threshold leaves,
    then a rejection. *)
Lemma calls_same_instant (ct now : Q) (m : nat) :
  forall self : t,
    0 < window_size self ->
    (request_threshold self - request_count self = Z.of_nat m)%Z ->
    Qeq_bool (inject_Z (Qfloor (now / window_size self)) * window_size self)
             (current_window_start self) = true
    \/ request_count self = 0%Z ->
    fst (calls (repeat (ct, now) (S m)) self) =
      repeat (Returned true) m ++ [Returned false].
Proof.
  induction m as [|m IH]; intros self HW Hleft Hwin.
  - cbn. rewrite allow_request_eq by (apply Qeq_bool_pos; exact HW).
    destruct self as [W T cws c]; cbn in *.
    destruct (Qeq_bool _ cws); cbn;
      match goal with |- context [(?a <? ?b)%Z] =>
        destruct (a <? b)%Z eqn:Et end;
      try apply Z.ltb_lt in Et; try reflexivity;
      destruct Hwin; try discriminate; lia.
  - change (repeat (ct, now) (S (S m))) with ((ct, now) :: repeat (ct, now) (S m)).
    cbn [calls].
    rewrite allow_request_eq by (apply Qeq_bool_pos; exact HW).
    destruct self as [W T cws c]; cbn [window_size request_threshold
      current_window_start request_count] in *.
    cbv zeta.
    assert (Hc : (request_count
                    (if Qeq_bool (inject_Z (Qfloor (now / W)) * W) cws
                     then mk W T cws c
                     else set_request_count 0
                            (set_current_window_start
                               (inject_Z (Qfloor (now / W)) * W)
                               (mk W T cws c))) = c)%Z).
    { destruct (Qeq_bool _ cws); cbn; [reflexivity|].
      destruct Hwin as [Hwin|Hwin]; [discriminate | now rewrite Hwin]. }
    rewrite Hc.
    replace (c <? request_threshold _)%Z with true
      by (symmetry; destruct (Qeq_bool _ cws); cbn; apply Z.ltb_lt; lia).
    match goal with |- context [calls _ ?s] =>
      specialize (IH s); destruct (calls _ s) as [rs s'] end.
    cbn [fst]. cbn [repeat app]. f_equal. apply IH.
    + destruct (Qeq_bool _ cws); exact HW.
    + destruct (Qeq_bool _ cws); cbn; lia.
    + left. destruct (Qeq_bool _ cws) eqn:E; cbn.
      * exact E.
      * apply Qeq_bool_refl.
Qed.

End FixedWindowCounterFacts.
Section FixedWindowCounterBound.

Import FixedWindowCounter.

Lemma calls_threshold_zero (readings : list (Q * Q)) :
  forall self : t,
    0 < window_size self -> request_threshold self = 0%Z ->
    (0 <= request_count self)%Z ->
    Forall (eq (Returned false)) (fst (calls readings self)).
Proof.
  induction readings as [|[ct now] rest IH]; intros self HW HT Hc; cbn.
  - constructor.
  - rewrite allow_request_eq by (apply Qeq_bool_pos; exact HW).
    destruct self as [W T cws c]; cbn in *.
    destruct (Qeq_bool _ cws); cbn;
      match goal with |- context [(?a <? ?b)%Z] =>
        destruct (a <? b)%Z eqn:Et end;
      try (apply Z.ltb_lt in Et; lia);
      match goal with |- context [calls rest ?s] =>
        specialize (IH s); destruct (calls rest s) as [rs s'] end;
      cbn in *; constructor; try reflexivity; apply IH; (assumption || lia).
Qed.

(** C1.  A limiter built with window size [W > 0] and threshold [T >= 0]
    admits at most [T] of any sequence of [allow_request] calls whose
    clock readings all lie in one window [[k*W, k*W + W)], whatever calls
    came before; [T + 1] calls at one instant on the fresh limiter return
    [True] [T] times and then [False]; with threshold [0] every call
    returns [False]. *)
Theorem C1_fixed_window_admissions (W : Q) (T : Z) (t0 : Q) :
  0 < W -> (0 <= T)%Z ->
  exists fresh : t,
    __init__ W T t0 = Returned fresh /\
    (forall (earlier readings : list (Q * Q)) (k : Z),
        Forall (fun r => inject_Z k * W <= snd r /\ snd r < inject_Z k * W + W)
               readings ->
        (Z.of_nat (admissions
                     (fst (calls readings (snd (calls earlier fresh))))) <= T)%Z) /\
    (forall current_time now : Q,
        fst (calls (repeat (current_time, now) (S (Z.to_nat T))) fresh) =
          repeat (Returned true) (Z.to_nat T) ++ [Returned false]) /\
    (T = 0%Z ->
     forall readings : list (Q * Q),
       Forall (eq (Returned false)) (fst (calls readings fresh))).
Proof.
  intros HW HT. rewrite (__init___eq W T t0 HW).
  eexists; split; [reflexivity|]. split; [|split].
  - intros earlier readings k Hin.
    match goal with |- context [calls earlier ?s] => set (fresh := s) end.
    destruct (calls_invariant earlier fresh HW (Z.le_refl 0)) as (EW & ET & Hc).
    set (self := snd (calls earlier fresh)) in *.
    change (window_size fresh) with W in EW.
    change (request_threshold fresh) with T in ET.
    assert (HW' : 0 < window_size self) by (rewrite EW; exact HW).
    rewrite <- EW in Hin.
    pose proof (admissions_in_window k readings self HW' Hc Hin) as H.
    rewrite ET in H. destruct (Qeq_bool _ _); lia.
  - intros ct now. apply calls_same_instant; cbn.
    + exact HW.
    + lia.
    + right; reflexivity.
  - intros -> readings. apply calls_threshold_zero; cbn.
    + exact HW.
    + reflexivity.
    + lia.
Qed.

Lemma C1_fixed_window_admissions_witness :
  exists fresh : t,
    __init__ 5 2 0 = Returned fresh /\
    (forall (earlier readings : list (Q * Q)) (k : Z),
        Forall (fun r => inject_Z k * 5 <= snd r /\ snd r < inject_Z k * 5 + 5)
               readings ->
        (Z.of_nat (admissions
                     (fst (calls readings (snd (calls earlier fresh))))) <= 2)%Z) /\
    (forall current_time now : Q,
        fst (calls (repeat (current_time, now) (S (Z.to_nat 2))) fresh) =
          repeat (Returned true) (Z.to_nat 2) ++ [Returned false]) /\
    (2%Z = 0%Z ->
     forall readings : list (Q * Q),
       Forall (eq (Returned false)) (fst (calls readings fresh))).
Proof.
  apply (C1_fixed_window_admissions 5 2 0); [reflexivity | lia].
Defined.

End FixedWindowCounterBound.

(** ** Token bucket *)

Section TokenBucketFacts.

Import TokenBucket.

Lemma _refill_eq (now : Q) (self : t) :
  _refill now self =
    (Returned tt,
     mk (bucket_size self) (refill_rate self)
        (Py.min (bucket_size self)
                (tokens self + (now - last_refill_time self) * refill_rate self))
        now).
Proof. reflexivity. Qed.

(** [allow_request] as the refill followed by the test. *)
Lemma allow_request_refill (now cost : Q) (self : t) :
  allow_request now cost self =
    let refilled := snd (_refill now self) in
    if ge (tokens refilled) cost
    then (Returned true, set_tokens (tokens refilled - cost) refilled)
    else (Returned false, refilled).
Proof.
  unfold allow_request, bind. rewrite _refill_eq. cbn.
  destruct (ge _ cost); reflexivity.
Qed.

Lemma refill_level_bounds (now : Q) (self : t) :
  0 <= bucket_size self -> 0 <= refill_rate self ->
  0 <= tokens self -> last_refill_time self <= now ->
  0 <= tokens (snd (_refill now self)) <= bucket_size self.
Proof.
  intros Hcap Hrate Htok Hclock. rewrite _refill_eq; cbn. split.
  - apply min_glb; [exact Hcap|].
    assert (0 <= (now - last_refill_time self) * refill_rate self)
      by (apply Qmult_le_0_compat; lra).
    lra.
  - apply min_le_l.
Qed.

Lemma calls_level_bounds (requests : list (Q * Q)) :
  forall self : t,
    0 <= bucket_size self -> 0 <= refill_rate self ->
    0 <= tokens self <= bucket_size self ->
    monotonic (last_refill_time self) (map fst requests) ->
    Forall (fun r => 1 <= snd r) requests ->
    let self' := snd (calls requests self) in
    bucket_size self' = bucket_size self /\
    0 <= tokens self' <= bucket_size self.
Proof.
  induction requests as [|[now cost] rest IH];
    intros self Hcap Hrate Htok Hclock Hcost; cbn [calls].
  - split; [reflexivity | exact Htok].
  - cbn in Hclock. destruct Hclock as [Hnow Hclock].
    inversion Hcost as [|r l Hc Hrest]; subst. cbn in Hc.
    rewrite allow_request_refill.
    pose proof (refill_level_bounds now self Hcap Hrate (proj1 Htok) Hnow) as Hb.
    rewrite _refill_eq in *. cbn in *.
    destruct (ge _ cost) eqn:E;
      match goal with |- context [calls rest ?s] =>
        specialize (IH s); destruct (calls rest s) as [rs s'] end;
      cbn in *; apply IH; try assumption.
    apply Qle_bool_iff in E. lra.
Qed.

End TokenBucketFacts.

Section TokenBucketClaims.

Import TokenBucket.

(** C2.  For a bucket built with capacity [>= 0] and refill rate [>= 0],
    after any run of [allow_request] calls with costs [>= 1] and a clock
    that never goes back (however far it jumps), the token level is
    between [0] and the capacity. *)
Theorem C2_token_level_bounds
    (capacity rate t0 : Q) (requests : list (Q * Q)) :
  0 <= capacity -> 0 <= rate ->
  monotonic t0 (map fst requests) ->
  Forall (fun r => 1 <= snd r) requests ->
  exists fresh : t,
    __init__ capacity rate t0 = Returned fresh /\
    0 <= tokens (snd (calls requests fresh)) <= capacity.
Proof.
  intros Hcap Hrate Hclock Hcost. eexists; split; [reflexivity|].
  apply (calls_level_bounds requests (mk capacity rate capacity t0));
    cbn; try assumption.
  lra.
Qed.

Lemma C2_token_level_bounds_witness :
  exists fresh : t,
    __init__ 5 (1 # 2) 0 = Returned fresh /\
    0 <= tokens (snd (calls [(0, 1); (1, 3); (1000000, 2)] fresh)) <= 5.
Proof.
  apply (C2_token_level_bounds 5 (1 # 2) 0 [(0, 1); (1, 3); (1000000, 2)]).
  - discriminate.
  - discriminate.
  - cbn. repeat split; discriminate.
  - repeat constructor; discriminate.
Defined.

(** C7.  Capacity 5, refill rate 1, clock at 0: five calls of cost 1 are
    admitted and leave 4, 3, 2, 1, 0 tokens, a sixth at the same instant
    is rejected, and a seventh two seconds later finds the bucket
    refilled to 2, is admitted and leaves 1. *)
Theorem C7_token_bucket_scenario :
  exists fresh : t,
    __init__ 5 1 0 = Returned fresh /\
    trace [(0, 1); (0, 1); (0, 1); (0, 1); (0, 1); (0, 1); (2, 1)] fresh =
      [(Returned true, 4); (Returned true, 3); (Returned true, 2);
       (Returned true, 1); (Returned true, 0); (Returned false, 0);
       (Returned true, 1)] /\
    tokens (snd (_refill 2 (snd (calls (repeat (0, 1) 6) fresh)))) = 2.
Proof.
  eexists; split; [reflexivity|]. split; reflexivity.
Qed.

End TokenBucketClaims.

Section TokenBucketCost.

Import TokenBucket.

(** C6, as stated, fails: on a fresh bucket of capacity 5 a call with
    cost [-1] raises nothing; it returns [True] and leaves 6 tokens. *)
Lemma C6_negative_cost_counterexample :
  exists fresh : t,
    __init__ 5 1 0 = Returned fresh /\
    allow_request 0 (-1) fresh = (Returned true, mk 5 1 6 0) /\
    forall e : exception, fst (allow_request 0 (-1) fresh) <> Raised e.
Proof.
  eexists; split; [reflexivity|]. split; [reflexivity|].
  intros e; discriminate.
Qed.

(** C6, amended.  [allow_request] raises for no cost: whatever its sign,
    the cost is tested against the refilled level and subtracted on
    admission.  On a bucket whose refilled level is not negative, a
    negative cost is therefore admitted and raises the level, and cost [0]
    is admitted and leaves the level at its refilled value. *)
Theorem C6_cost_of_any_sign (self : t) (now : Q) :
  let refilled := snd (_refill now self) in
  (forall cost : Q,
      allow_request now cost self =
        if ge (tokens refilled) cost
        then (Returned true, set_tokens (tokens refilled - cost) refilled)
        else (Returned false, refilled)) /\
  (0 <= tokens refilled ->
   forall cost : Q, cost < 0 ->
     allow_request now cost self =
       (Returned true, set_tokens (tokens refilled - cost) refilled) /\
     tokens refilled < tokens refilled - cost) /\
  (0 <= tokens refilled ->
   exists self' : t,
     allow_request now 0 self = (Returned true, self') /\
     tokens self' == tokens refilled /\
     bucket_size self' = bucket_size refilled /\
     refill_rate self' = refill_rate refilled /\
     last_refill_time self' = last_refill_time refilled).
Proof.
  intros refilled. split; [|split].
  - intros cost. apply allow_request_refill.
  - intros Hlevel cost Hneg. rewrite allow_request_refill.
    cbv zeta. fold refilled.
    assert (E : ge (tokens refilled) cost = true)
      by (apply Qle_bool_iff; lra).
    rewrite E. split; [reflexivity | lra].
  - intros Hlevel. rewrite allow_request_refill.
    cbv zeta. fold refilled.
    assert (E : ge (tokens refilled) 0 = true)
      by (apply Qle_bool_iff; exact Hlevel).
    rewrite E. eexists; split; [reflexivity|]. cbn.
    repeat split; try reflexivity. lra.
Qed.

Lemma C6_cost_of_any_sign_witness :
  allow_request 3 (-2) (mk 5 1 1 0) = (Returned true, mk 5 1 6 3) /\
  exists self' : t,
    allow_request 3 0 (mk 5 1 1 0) = (Returned true, self') /\
    tokens self' == 4.
Proof.
  destruct (C6_cost_of_any_sign (mk 5 1 1 0) 3) as (_ & Hneg & Hzero).
  split.
  - exact (proj1 (Hneg ltac:(discriminate) (-2) ltac:(reflexivity))).
  - destruct (Hzero ltac:(discriminate)) as (self' & Hcall & Hlevel & _).
    exists self'. split; [exact Hcall | exact Hlevel].
Defined.

End TokenBucketCost.

(** ** Leaking bucket *)

Section LeakingBucketFacts.

Import LeakingBucket.

Lemma popleft_loop_nil (n : nat) : popleft_loop n [] = [].
Proof. destruct n; reflexivity. Qed.

Lemma popleft_loop_skipn (n : nat) :
  forall queue : list Q, popleft_loop n queue = skipn n queue.
Proof.
  induction n as [|n IH]; intros [|x queue]; cbn; try reflexivity.
  apply IH.
Qed.

Lemma popleft_loop_add (n m : nat) :
  forall queue : list Q,
    popleft_loop m (popleft_loop n queue) = popleft_loop (n + m) queue.
Proof.
  induction n as [|n IH]; intros [|x queue]; cbn;
    try reflexivity; try apply popleft_loop_nil.
  apply IH.
Qed.

Lemma length_popleft_loop (n : nat) :
  forall queue : list Q,
    length (popleft_loop n queue) = (length queue - n)%nat.
Proof.
  induction n as [|n IH]; intros [|x queue]; cbn; try reflexivity.
  apply IH.
Qed.

Lemma Qfloor_sub_Z (x : Q) (k : Z) :
  Qfloor (x - inject_Z k) = (Qfloor x - k)%Z.
Proof.
  apply Qfloor_between.
  - unfold Z.sub. rewrite inject_Z_plus, inject_Z_opp.
    pose proof (Qfloor_le x). lra.
  - unfold Z.sub. rewrite inject_Z_plus, inject_Z_opp.
    pose proof (Qlt_floor x) as H. rewrite inject_Z_plus in H.
    change (inject_Z 1) with 1 in H. lra.
Qed.

(** A whole number of drain intervals fits in the elapsed time, and less
    than one interval is left over. *)
Lemma whole_intervals (e r : Q) :
  0 < r -> 0 <= e ->
  inject_Z (Qfloor (e * r)) / r <= e /\
  e < inject_Z (Qfloor (e * r)) / r + 1 / r.
Proof.
  intros Hr He. split.
  - apply Qle_shift_div_r; [exact Hr | apply Qfloor_le].
  - assert (E : inject_Z (Qfloor (e * r)) / r + 1 / r
                == inject_Z (Qfloor (e * r) + 1) / r)
      by (rewrite inject_Z_plus; change (inject_Z 1) with 1; field; lra).
    rewrite E. apply Qlt_shift_div_l; [exact Hr | apply Qlt_floor].
Qed.

Lemma _process_queue_eq (now : Q) (self : t) :
  Qeq_bool (outflow_rate self) 0 = false ->
  _process_queue now self =
    let n := int ((now - last_processed_time self) * outflow_rate self) in
    (Returned tt,
     mk (bucket_size self) (outflow_rate self)
        (popleft_loop (Z.to_nat n) (queue self))
        (last_processed_time self + inject_Z n / outflow_rate self)).
Proof.
  intros Hr. unfold _process_queue, bind, get, modify, lift, truediv.
  cbn. rewrite Hr. reflexivity.
Qed.

Lemma int_zero (x : Q) : x == 0 -> int x = 0%Z.
Proof.
  destruct x as [n d]; unfold Qeq, int; simpl; intros H.
  replace n with 0%Z by lia. reflexivity.
Qed.

(** With a zero outflow rate the division of line 51 raises, after a loop
    that popped nothing. *)
Lemma _process_queue_zero_rate (now : Q) (self : t) :
  outflow_rate self == 0 ->
  _process_queue now self = (Raised ZeroDivisionError, self).
Proof.
  intros Hr. unfold _process_queue, bind, get, modify, lift, truediv.
  cbn. rewrite (Qeq_eq_bool _ _ Hr).
  rewrite int_zero by (rewrite Hr; ring).
  destruct self; reflexivity.
Qed.

Lemma add_request_drained (now stamp : Q) (self : t) :
  add_request now stamp self =
    match _process_queue now self with
    | (Returned _, drained) =>
        if (Z.of_nat (length (queue drained)) <? bucket_size drained)%Z
        then (Returned true, set_queue (queue drained ++ [stamp]) drained)
        else (Returned false, drained)
    | (Raised e, self') => (Raised e, self')
    end.
Proof.
  unfold add_request, bind.
  destruct (_process_queue now self) as [[[]|e] drained]; cbn;
    try reflexivity.
  destruct (_ <? _)%Z; reflexivity.
Qed.

End LeakingBucketFacts.

Section LeakingBucketDrain.

Import LeakingBucket.

(** The drain step on a bucket with a positive rate, at a clock reading
    not before [last_processed_time]. *)
Lemma drain_step (now : Q) (self : t) :
  0 < outflow_rate self -> last_processed_time self <= now ->
  let n := Qfloor ((now - last_processed_time self) * outflow_rate self) in
  let advanced := last_processed_time self + inject_Z n / outflow_rate self in
  _process_queue now self =
    (Returned tt,
     mk (bucket_size self) (outflow_rate self)
        (popleft_loop (Z.to_nat n) (queue self)) advanced) /\
  (0 <= n)%Z /\ advanced <= now /\ now < advanced + 1 / outflow_rate self.
Proof.
  intros Hr Hclock n advanced.
  assert (He : 0 <= (now - last_processed_time self) * outflow_rate self)
    by (apply Qmult_le_0_compat; lra).
  split; [|split].
  - rewrite _process_queue_eq by (apply Qeq_bool_pos; exact Hr).
    cbv zeta. rewrite (int_floor _ He). reflexivity.
  - unfold n. rewrite <- (Qfloor_Z 0). apply Qfloor_resp_le. exact He.
  - destruct (whole_intervals (now - last_processed_time self)
                (outflow_rate self) Hr) as [Hlo Hhi]; [lra|].
    unfold advanced, n. split; lra.
Qed.

Lemma add_request_step (now stamp : Q) (self : t) :
  0 < outflow_rate self -> last_processed_time self <= now ->
  (Z.of_nat (length (queue self)) <= bucket_size self)%Z ->
  exists (b : bool) (self' : t),
    add_request now stamp self = (Returned b, self') /\
    bucket_size self' = bucket_size self /\
    outflow_rate self' = outflow_rate self /\
    last_processed_time self' <= now /\
    (Z.of_nat (length (queue self')) <= bucket_size self)%Z.
Proof.
  intros Hr Hclock Hlen.
  destruct (drain_step now self Hr Hclock) as (Hdrain & _ & Hle & _).
  rewrite add_request_drained, Hdrain.
  cbn [bucket_size queue outflow_rate last_processed_time].
  pose proof (length_popleft_loop
    (Z.to_nat (Qfloor ((now - last_processed_time self) * outflow_rate self)))
    (queue self)) as Hpop.
  destruct (_ <? _)%Z eqn:E.
  - apply Z.ltb_lt in E. exists true. eexists. split; [reflexivity|].
    cbn [bucket_size queue outflow_rate last_processed_time set_queue].
    rewrite length_app. cbn [length].
    repeat split; try assumption. lia.
  - exists false. eexists. split; [reflexivity|].
    cbn [bucket_size queue outflow_rate last_processed_time].
    repeat split; try assumption. lia.
Qed.

Lemma calls_queue_bound (readings : list (Q * Q)) (now : Q) :
  forall (self : t) (start : Q),
    0 < outflow_rate self -> last_processed_time self <= start ->
    (Z.of_nat (length (queue self)) <= bucket_size self)%Z ->
    monotonic start (map fst readings ++ [now]) ->
    let self' := snd (calls readings self) in
    bucket_size self' = bucket_size self /\
    outflow_rate self' = outflow_rate self /\
    last_processed_time self' <= now /\
    (Z.of_nat (length (queue self')) <= bucket_size self)%Z.
Proof.
  induction readings as [|[t stamp] rest IH];
    intros self start Hr Hlast Hlen Hclock; cbn [calls].
  - cbn in *. repeat split; try assumption. lra.
  - cbn in Hclock. destruct Hclock as [Ht Hclock].
    destruct (add_request_step t stamp self Hr) as (b & s & Hcall & Hcap & Hrate & Hs & Hl);
      [lra | exact Hlen |].
    rewrite Hcall.
    specialize (IH s t). destruct (calls rest s) as [rs s'].
    cbn [snd] in *. rewrite Hcap, Hrate in IH.
    apply IH; assumption.
Qed.

End LeakingBucketDrain.

Section LeakingBucketClaims.

Import LeakingBucket.

(** C3, as stated, fails: the advance of [last_processed_time] follows the
    computed count, not the items popped.  On an empty bucket of rate 1
    read 3.5 seconds after its construction, no item is drained and
    [last_processed_time] still advances by three intervals. *)
Lemma C3_advance_counterexample :
  exists fresh drained : t,
    __init__ 3 1 0 = Returned fresh /\
    _process_queue (7 # 2) fresh = (Returned tt, drained) /\
    (length (queue fresh) - length (queue drained) = 0)%nat /\
    last_processed_time drained - last_processed_time fresh == 3 /\
    ~ last_processed_time drained - last_processed_time fresh ==
      inject_Z (Z.of_nat (length (queue fresh) - length (queue drained)))
      / outflow_rate fresh.
Proof.
  exists (mk 3 1 [] 0), (mk 3 1 [] 3).
  split; [reflexivity|]. split; [reflexivity|].
  cbn. split; [reflexivity|]. split; [reflexivity | discriminate].
Qed.

(** C4: the code at [outflow_rate = 0].  The bucket is constructed, and
    each [add_request] raises [ZeroDivisionError] at the division of
    line 51, before the admission test; nothing is queued and the object
    stays as constructed. *)
Theorem C4_zero_outflow_rate_raises (capacity : Z) (t0 now stamp : Q) :
  exists fresh : t,
    __init__ capacity 0 t0 = Returned fresh /\
    queue fresh = [] /\
    add_request now stamp fresh = (Raised ZeroDivisionError, fresh).
Proof.
  eexists; split; [reflexivity|]. split; [reflexivity|].
  rewrite add_request_drained, _process_queue_zero_rate; reflexivity.
Qed.

End LeakingBucketClaims.

Section LeakingBucketBinary64.

Import LeakingBucket.

Lemma int_opp (x : Q) : int (- x) = (- int x)%Z.
Proof.
  destruct x as [n d]; unfold int; simpl. apply Z.quot_opp_l. discriminate.
Qed.

Lemma int_comp (x y : Q) : x == y -> int x = int y.
Proof.
  intros E. destruct (Qlt_le_dec x 0) as [Hneg|Hpos].
  - assert (Hx : int x = (- int (- x))%Z) by (rewrite int_opp; lia).
    assert (Hy : int y = (- int (- y))%Z) by (rewrite int_opp; lia).
    rewrite Hx, Hy, !int_floor by lra.
    f_equal. apply Qfloor_comp. rewrite E. reflexivity.
  - rewrite !int_floor by lra. apply Qfloor_comp. exact E.
Qed.

Lemma _process_queue64_eq (now : Q) (self : t) :
  Qeq_bool (outflow_rate self) 0 = false ->
  LeakingBucket64._process_queue now self =
    let n := int (Binary64.round
                    (Binary64.round (now - last_processed_time self)
                     * outflow_rate self)) in
    (Returned tt,
     mk (bucket_size self) (outflow_rate self)
        (popleft_loop (Z.to_nat n) (queue self))
        (Binary64.round
           (last_processed_time self
            + Binary64.round (inject_Z n / outflow_rate self)))).
Proof.
  intros Hr.
  unfold LeakingBucket64._process_queue, bind, get, modify, lift, truediv.
  cbn [outflow_rate set_queue]. rewrite Hr. reflexivity.
Qed.

Lemma add_request64_drained (now stamp : Q) (self : t) :
  LeakingBucket64.add_request now stamp self =
    match LeakingBucket64._process_queue now self with
    | (Returned _, drained) =>
        if (Z.of_nat (length (queue drained)) <? bucket_size drained)%Z
        then (Returned true, set_queue (queue drained ++ [stamp]) drained)
        else (Returned false, drained)
    | (Raised e, self') => (Raised e, self')
    end.
Proof.
  unfold LeakingBucket64.add_request, bind.
  destruct (LeakingBucket64._process_queue now self) as [[[]|e] drained];
    cbn [get]; try reflexivity.
  destruct (_ <? _)%Z; reflexivity.
Qed.

(** Whatever the arithmetic gives, a call leaves the size and the rate
    alone and never lets the queue grow past the size. *)
Lemma add_request64_step (now stamp : Q) (self : t) :
  Qeq_bool (outflow_rate self) 0 = false ->
  (Z.of_nat (length (queue self)) <= bucket_size self)%Z ->
  exists (b : bool) (self' : t),
    LeakingBucket64.add_request now stamp self = (Returned b, self') /\
    bucket_size self' = bucket_size self /\
    outflow_rate self' = outflow_rate self /\
    (Z.of_nat (length (queue self')) <= bucket_size self)%Z.
Proof.
  intros Hr Hlen.
  rewrite add_request64_drained, (_process_queue64_eq now self Hr). cbv zeta.
  cbn [bucket_size queue].
  match goal with |- context [popleft_loop ?k (queue self)] =>
    pose proof (length_popleft_loop k (queue self)) as Hpop end.
  destruct (_ <? _)%Z eqn:E.
  - apply Z.ltb_lt in E. exists true. eexists. split; [reflexivity|].
    cbn [bucket_size queue outflow_rate set_queue].
    rewrite length_app. cbn [length]. repeat split. lia.
  - exists false. eexists. split; [reflexivity|].
    cbn [bucket_size queue outflow_rate]. repeat split. lia.
Qed.

Lemma calls64_queue_bound (readings : list (Q * Q)) :
  forall self : t,
    Qeq_bool (outflow_rate self) 0 = false ->
    (Z.of_nat (length (queue self)) <= bucket_size self)%Z ->
    let self' := snd (LeakingBucket64.calls readings self) in
    bucket_size self' = bucket_size self /\
    outflow_rate self' = outflow_rate self /\
    (Z.of_nat (length (queue self')) <= bucket_size self)%Z.
Proof.
  induction readings as [|[now stamp] rest IH]; intros self Hr Hlen;
    cbn [LeakingBucket64.calls].
  - cbn. repeat split. exact Hlen.
  - destruct (add_request64_step now stamp self Hr Hlen)
      as (b & s & Hcall & Hcap & Hrate & Hl).
    rewrite Hcall. specialize (IH s).
    destruct (LeakingBucket64.calls rest s) as [rs s'].
    cbn [snd] in *. rewrite Hcap, Hrate in IH. apply IH; assumption.
Qed.

(** A drain step none of whose operations rounds is the exact one. *)
Lemma drain64_exact (now : Q) (self : t) :
  0 < outflow_rate self -> last_processed_time self <= now ->
  LeakingBucket64.exact_drain now self ->
  let n := Qfloor ((now - last_processed_time self) * outflow_rate self) in
  exists drained : t,
    LeakingBucket64._process_queue now self = (Returned tt, drained) /\
    bucket_size drained = bucket_size self /\
    outflow_rate drained = outflow_rate self /\
    queue drained = popleft_loop (Z.to_nat n) (queue self) /\
    last_processed_time drained
      == last_processed_time self + inject_Z n / outflow_rate self /\
    int (Binary64.round (Binary64.round (now - last_processed_time self)
                         * outflow_rate self)) = n /\
    (0 <= n)%Z /\
    last_processed_time drained <= now /\
    now < last_processed_time drained + 1 / outflow_rate self.
Proof.
  intros Hr Hclock (E1 & E2 & E3 & E4) n.
  rewrite _process_queue64_eq by (apply Qeq_bool_pos; exact Hr). cbv zeta.
  set (e64 := Binary64.round (now - last_processed_time self)) in *.
  set (p64 := Binary64.round (e64 * outflow_rate self)) in *.
  set (s64 := Binary64.round (inject_Z (int p64) / outflow_rate self)) in *.
  assert (He : 0 <= (now - last_processed_time self) * outflow_rate self)
    by (apply Qmult_le_0_compat; lra).
  assert (Hp : p64 == (now - last_processed_time self) * outflow_rate self).
  { apply Qeq_trans with (e64 * outflow_rate self); [exact E2|].
    apply Qmult_comp; [exact E1 | reflexivity]. }
  assert (Hn : int p64 = n).
  { rewrite (int_comp _ _ Hp). apply int_floor. exact He. }
  assert (Hlast : Binary64.round (last_processed_time self + s64)
                  == last_processed_time self + inject_Z n / outflow_rate self).
  { apply Qeq_trans with (last_processed_time self + s64); [exact E4|].
    apply Qplus_comp; [reflexivity|]. rewrite <- Hn. exact E3. }
  destruct (whole_intervals (now - last_processed_time self)
              (outflow_rate self) Hr) as [Hlo Hhi]; [lra|].
  fold n in Hlo, Hhi.
  eexists. split; [reflexivity|].
  cbn [bucket_size outflow_rate queue last_processed_time].
  rewrite Hn. repeat split.
  - exact Hlast.
  - unfold n. rewrite <- (Qfloor_Z 0). apply Qfloor_resp_le. exact He.
  - rewrite Hlast. lra.
  - rewrite Hlast. lra.
Qed.

(** C3, amended.  On a bucket built with capacity [>= 0] and rate [> 0],
    every [add_request] call first computes, in the binary64 arithmetic of
    the source, [n = int(elapsed * outflow_rate)], pops [n] items from the
    front of the queue (all of them if it holds fewer), and advances
    [last_processed_time] by the rounded [n / outflow_rate], whether or not
    [n] items were there; the call leaves at most [capacity] items queued.
    When [last_processed_time] is not after the reading and none of the four
    operations rounds, [n] is [floor(elapsed * outflow_rate)] and what is
    left of the elapsed time, less than one interval, stays ahead of
    [last_processed_time]. *)
Theorem C3_drain_whole_intervals
    (capacity : Z) (rate t0 : Q) (earlier : list (Q * Q)) (now stamp : Q) :
  (0 <= capacity)%Z -> 0 < rate ->
  exists fresh : t,
    __init__ capacity rate t0 = Returned fresh /\
    let self := snd (LeakingBucket64.calls earlier fresh) in
    let n := int (Binary64.round
                    (Binary64.round (now - last_processed_time self) * rate)) in
    exists (drained : t) (b : bool) (self' : t),
      LeakingBucket64._process_queue now self = (Returned tt, drained) /\
      LeakingBucket64.add_request now stamp self = (Returned b, self') /\
      queue drained = skipn (Z.to_nat n) (queue self) /\
      last_processed_time drained
        = Binary64.round (last_processed_time self
                          + Binary64.round (inject_Z n / rate)) /\
      last_processed_time self' = last_processed_time drained /\
      queue self' = (if b then queue drained ++ [stamp] else queue drained) /\
      (Z.of_nat (length (queue self')) <= capacity)%Z /\
      (last_processed_time self <= now ->
       LeakingBucket64.exact_drain now self ->
       n = Qfloor ((now - last_processed_time self) * rate) /\
       (0 <= n)%Z /\
       last_processed_time drained
         == last_processed_time self + inject_Z n / rate /\
       last_processed_time drained <= now /\
       now < last_processed_time drained + 1 / rate).
Proof.
  intros Hcap Hr. eexists; split; [reflexivity|].
  set (fresh := mk capacity rate [] t0).
  assert (Hr0 : Qeq_bool rate 0 = false) by (apply Qeq_bool_pos; exact Hr).
  destruct (calls64_queue_bound earlier fresh Hr0) as (Ecap & Erate & Hlen);
    [cbn; lia|].
  set (self := snd (LeakingBucket64.calls earlier fresh)) in *.
  cbn [bucket_size outflow_rate fresh] in Ecap, Erate, Hlen.
  assert (Hr1 : Qeq_bool (outflow_rate self) 0 = false)
    by (rewrite Erate; exact Hr0).
  cbv zeta.
  rewrite add_request64_drained, (_process_queue64_eq now self Hr1). cbv zeta.
  rewrite Erate.
  set (n := int (Binary64.round
                   (Binary64.round (now - last_processed_time self) * rate))).
  pose proof (length_popleft_loop (Z.to_nat n) (queue self)) as Hpop.
  assert (Hexact :
    last_processed_time self <= now ->
    LeakingBucket64.exact_drain now self ->
    n = Qfloor ((now - last_processed_time self) * rate) /\
    (0 <= n)%Z /\
    Binary64.round (last_processed_time self
                    + Binary64.round (inject_Z n / rate))
      == last_processed_time self + inject_Z n / rate /\
    Binary64.round (last_processed_time self
                    + Binary64.round (inject_Z n / rate)) <= now /\
    now < Binary64.round (last_processed_time self
                          + Binary64.round (inject_Z n / rate)) + 1 / rate).
  { intros Hclock Hex.
    assert (Hr2 : 0 < outflow_rate self) by (rewrite Erate; exact Hr).
    destruct (drain64_exact now self Hr2 Hclock Hex)
      as (drained & Hd & _ & _ & _ & Hl & Hn & Hpos & Hle & Hlt).
    rewrite (_process_queue64_eq now self Hr1) in Hd. cbv zeta in Hd.
    rewrite Erate in Hd, Hl, Hn, Hpos, Hlt. fold n in Hd, Hn.
    injection Hd as Hd. subst drained.
    cbn [last_processed_time] in Hl, Hle, Hlt.
    rewrite <- Hn in Hl, Hpos.
    repeat split; assumption. }
  cbn [bucket_size queue].
  eexists. destruct (_ <? _)%Z eqn:E;
    [exists true | exists false]; eexists;
    (split; [reflexivity|]); (split; [reflexivity|]);
    cbn [bucket_size queue outflow_rate last_processed_time set_queue];
    (split; [apply popleft_loop_skipn|]);
    (split; [reflexivity|]); (split; [reflexivity|]); (split; [reflexivity|]);
    (split; [|exact Hexact]).
  - apply Z.ltb_lt in E. rewrite length_app. cbn [length]. lia.
  - lia.
Qed.

Lemma C3_drain_whole_intervals_witness :
  exists fresh : t,
    __init__ 3 1 0 = Returned fresh /\
    let self := snd (LeakingBucket64.calls [(0, 0); (1 # 2, 1 # 2)] fresh) in
    let n := int (Binary64.round
                    (Binary64.round ((7 # 2) - last_processed_time self) * 1)) in
    exists (drained : t) (b : bool) (self' : t),
      LeakingBucket64._process_queue (7 # 2) self = (Returned tt, drained) /\
      LeakingBucket64.add_request (7 # 2) (7 # 2) self = (Returned b, self') /\
      queue drained = skipn (Z.to_nat n) (queue self) /\
      last_processed_time drained
        = Binary64.round (last_processed_time self
                          + Binary64.round (inject_Z n / 1)) /\
      last_processed_time self' = last_processed_time drained /\
      queue self' = (if b then queue drained ++ [(7 # 2)] else queue drained) /\
      (Z.of_nat (length (queue self')) <= 3)%Z /\
      (last_processed_time self <= (7 # 2) ->
       LeakingBucket64.exact_drain (7 # 2) self ->
       n = Qfloor (((7 # 2) - last_processed_time self) * 1) /\
       (0 <= n)%Z /\
       last_processed_time drained
         == last_processed_time self + inject_Z n / 1 /\
       last_processed_time drained <= (7 # 2) /\
       (7 # 2) < last_processed_time drained + 1 / 1).
Proof.
  apply (C3_drain_whole_intervals 3 1 0 [(0, 0); (1 # 2, 1 # 2)] (7 # 2) (7 # 2)).
  - lia.
  - reflexivity.
Defined.

(** C8, as stated, fails in the arithmetic of the source.  A bucket of rate
    10 holds five items, its clock and [last_processed_time] at 0, and [t]
    is the binary64 number written [0.3].  Draining at [t / 2] and again at
    [t / 2 + t / 2] pops one item each time, two in all; draining once at
    [t] pops three.  The three readings are binary64 numbers. *)
Lemma C8_rounding_counterexample :
  let t := Binary64.round (3 # 10) in
  let self := mk 5 10 [0; 0; 0; 0; 0] 0 in
  let half := snd (LeakingBucket64._process_queue (t / 2) self) in
  let both := snd (LeakingBucket64._process_queue (t / 2 + t / 2) half) in
  let full := snd (LeakingBucket64._process_queue t self) in
  fst (LeakingBucket64._process_queue (t / 2) self) = Returned tt /\
  fst (LeakingBucket64._process_queue (t / 2 + t / 2) half) = Returned tt /\
  fst (LeakingBucket64._process_queue t self) = Returned tt /\
  (length (queue self) - length (queue half) = 1)%nat /\
  (length (queue half) - length (queue both) = 1)%nat /\
  (length (queue self) - length (queue full) = 3)%nat /\
  Binary64.round (t / 2) == t / 2 /\
  Binary64.round (t / 2 + t / 2) == t / 2 + t / 2 /\
  t / 2 + t / 2 == t.
Proof. vm_compute. repeat split. Qed.

(** C8, amended.  On a bucket with a positive rate whose clock stands at
    [clock] (not before [last_processed_time]), if none of the operations
    of the three drain steps rounds in binary64, then draining after an
    advance of [t / 2] and again after a second advance of [t / 2] pops in
    total as many items as draining once after an advance of [t], and
    leaves the same queue and the same [last_processed_time]. *)
Theorem C8_two_half_advances (self : t) (clock t : Q) :
  0 < outflow_rate self -> last_processed_time self <= clock -> 0 <= t ->
  LeakingBucket64.exact_drain (clock + t / 2) self ->
  LeakingBucket64.exact_drain (clock + t / 2 + t / 2)
    (snd (LeakingBucket64._process_queue (clock + t / 2) self)) ->
  LeakingBucket64.exact_drain (clock + t) self ->
  exists half both full : LeakingBucket.t,
    LeakingBucket64._process_queue (clock + t / 2) self = (Returned tt, half) /\
    LeakingBucket64._process_queue (clock + t / 2 + t / 2) half
      = (Returned tt, both) /\
    LeakingBucket64._process_queue (clock + t) self = (Returned tt, full) /\
    ((length (queue self) - length (queue half)) +
     (length (queue half) - length (queue both)) =
     length (queue self) - length (queue full))%nat /\
    queue both = queue full /\
    last_processed_time both == last_processed_time full.
Proof.
  intros Hr Hclock Ht ExA ExB ExC.
  assert (Hhalf : 0 <= t / 2) by (apply Qle_shift_div_l; lra).
  destruct (drain64_exact (clock + t / 2) self Hr) as
    (half & HA & _ & rA & qA & lA & _ & n1pos & leA & _); [lra | exact ExA |].
  rewrite HA in ExB. cbn [snd] in ExB.
  assert (HrA : 0 < outflow_rate half) by (rewrite rA; exact Hr).
  destruct (drain64_exact (clock + t / 2 + t / 2) half HrA) as
    (both & HB & _ & _ & qB & lB & _ & n2pos & _); [lra | exact ExB |].
  destruct (drain64_exact (clock + t) self Hr) as
    (full & HC & _ & _ & qC & lC & _ & npos & _); [lra | exact ExC |].
  rewrite rA in qB, lB, n2pos.
  set (L := last_processed_time self) in *.
  set (r := outflow_rate self) in *.
  set (n1 := Qfloor ((clock + t / 2 - L) * r)) in *.
  set (n := Qfloor ((clock + t - L) * r)) in *.
  assert (Hrne : ~ r == 0) by (intros Hz; rewrite Hz in Hr; discriminate).
  assert (E : Qfloor ((clock + t / 2 + t / 2 - last_processed_time half) * r)
              = (n - n1)%Z).
  { unfold n. rewrite <- Qfloor_sub_Z. apply Qfloor_comp.
    rewrite lA. field. exact Hrne. }
  rewrite E in qB, lB, n2pos.
  exists half, both, full.
  split; [exact HA|]. split; [exact HB|]. split; [exact HC|].
  assert (Hq : queue both = queue full).
  { rewrite qB, qA, qC, popleft_loop_add. f_equal. lia. }
  split; [|split].
  - rewrite qB, qA, qC, !length_popleft_loop. lia.
  - exact Hq.
  - rewrite lB, lA, lC. unfold Z.sub. rewrite inject_Z_plus, inject_Z_opp.
    field. exact Hrne.
Qed.

Lemma C8_two_half_advances_witness :
  exists half both full : LeakingBucket.t,
    LeakingBucket64._process_queue (0 + 3 / 2) (mk 5 1 [0; 0; 0] 0)
      = (Returned tt, half) /\
    LeakingBucket64._process_queue (0 + 3 / 2 + 3 / 2) half
      = (Returned tt, both) /\
    LeakingBucket64._process_queue (0 + 3) (mk 5 1 [0; 0; 0] 0)
      = (Returned tt, full) /\
    ((length [0; 0; 0] - length (queue half)) +
     (length (queue half) - length (queue both)) =
     length [0; 0; 0] - length (queue full))%nat /\
    queue both = queue full /\
    last_processed_time both == last_processed_time full.
Proof.
  apply (C8_two_half_advances (mk 5 1 [0; 0; 0] 0) 0 3).
  - reflexivity.
  - discriminate.
  - discriminate.
  - vm_compute. repeat split.
  - vm_compute. repeat split.
  - vm_compute. repeat split.
Defined.

End LeakingBucketBinary64.

(** ** Rejections and construction *)

Section Rejection.

(** C9.  A call that returns [False] changes nothing but the time
    bookkeeping.  Fixed window: the object is the one the rollover test
    left, untouched when the window is the current one, with the new
    window start and a count of [0] otherwise.  Token bucket: the object
    is the one [_refill] produced.  Leaking bucket: the object is the one
    [_process_queue] produced, nothing pushed. *)
Theorem C9_rejection_frame :
  (forall (current_time now : Q) (self self' : FixedWindowCounter.t),
      FixedWindowCounter.allow_request current_time now self
        = (Returned false, self') ->
      exists window : Q,
        FixedWindowCounter._get_current_window now self
          = (Returned window, self) /\
        (Qeq_bool window (FixedWindowCounter.current_window_start self) = true ->
         self' = self) /\
        (Qeq_bool window (FixedWindowCounter.current_window_start self) = false ->
         self' = FixedWindowCounter.mk
                   (FixedWindowCounter.window_size self)
                   (FixedWindowCounter.request_threshold self) window 0)) /\
  (forall (now cost : Q) (self self' : TokenBucket.t),
      TokenBucket.allow_request now cost self = (Returned false, self') ->
      TokenBucket._refill now self = (Returned tt, self')) /\
  (forall (now stamp : Q) (self self' : LeakingBucket.t),
      LeakingBucket.add_request now stamp self = (Returned false, self') ->
      LeakingBucket._process_queue now self = (Returned tt, self')).
Proof.
  split; [|split].
  - intros ct now self self' Hcall.
    destruct (Qeq_bool (FixedWindowCounter.window_size self) 0) eqn:HW.
    + exfalso. revert Hcall.
      unfold FixedWindowCounter.allow_request,
        FixedWindowCounter._get_current_window, bind, get, lift, floordiv.
      rewrite HW. discriminate.
    + rewrite allow_request_eq in Hcall by exact HW.
      rewrite _get_current_window_eq by exact HW.
      eexists; split; [reflexivity|].
      cbv zeta in Hcall.
      destruct (Qeq_bool _ (FixedWindowCounter.current_window_start self));
        revert Hcall;
        match goal with |- context [(?a <? ?b)%Z] => destruct (a <? b)%Z end;
        intros Hcall; inversion Hcall; split; intros; try discriminate;
        reflexivity.
  - intros now cost self self' Hcall.
    rewrite allow_request_refill in Hcall. cbv zeta in Hcall.
    rewrite _refill_eq in *. cbn [snd] in Hcall.
    destruct (ge _ cost); inversion Hcall. reflexivity.
  - intros now stamp self self' Hcall.
    rewrite add_request_drained in Hcall.
    destruct (LeakingBucket._process_queue now self) as [[[]|e] drained];
      [|discriminate].
    destruct (_ <? _)%Z; inversion Hcall. reflexivity.
Qed.

Lemma C9_rejection_frame_witness :
  (exists window : Q,
      FixedWindowCounter._get_current_window 1 (FixedWindowCounter.mk 5 1 0 1)
        = (Returned window, FixedWindowCounter.mk 5 1 0 1) /\
      (Qeq_bool window 0 = true ->
       FixedWindowCounter.mk 5 1 0 1 = FixedWindowCounter.mk 5 1 0 1) /\
      (Qeq_bool window 0 = false ->
       FixedWindowCounter.mk 5 1 0 1 = FixedWindowCounter.mk 5 1 window 0)) /\
  TokenBucket._refill 0 (TokenBucket.mk 5 1 0 0)
    = (Returned tt, TokenBucket.mk 5 1 0 0) /\
  LeakingBucket._process_queue 0 (LeakingBucket.mk 1 1 [0] 0)
    = (Returned tt, LeakingBucket.mk 1 1 [0] (0 + 0 / 1)).
Proof.
  destruct C9_rejection_frame as (Hwindow & Htoken & Hleak).
  split; [|split].
  - apply (Hwindow 1 1 (FixedWindowCounter.mk 5 1 0 1)
                   (FixedWindowCounter.mk 5 1 0 1)).
    reflexivity.
  - apply (Htoken 0 1). reflexivity.
  - apply (Hleak 0 0). reflexivity.
Defined.

End Rejection.

Section Construction.

(** C5, as stated, fails: the three constructors accept negative window
    size, threshold, capacity and rates, and return an instance. *)
Lemma C5_negative_parameters_counterexample :
  FixedWindowCounter.__init__ (-5) (-1) (7 # 2)
    = Returned (FixedWindowCounter.mk (-5) (-1) 5 0) /\
  TokenBucket.__init__ (-5) (-1) 0
    = Returned (TokenBucket.mk (-5) (-1) (-5) 0) /\
  LeakingBucket.__init__ (-5) (-1) 0
    = Returned (LeakingBucket.mk (-5) (-1) [] 0).
Proof. repeat split. Qed.

(** C5, amended.  No constructor validates its arguments.  Whatever the
    sign of threshold, capacity and rates, and for every window size other
    than zero, construction returns an instance that holds the arguments
    as given; the zero threshold, capacity and rates construct the same
    way. *)
Theorem C5_construction_unvalidated :
  (forall (window_size : Q) (request_threshold : Z) (now : Q),
      ~ window_size == 0 ->
      exists window : Q,
        FixedWindowCounter.__init__ window_size request_threshold now
          = Returned (FixedWindowCounter.mk window_size request_threshold
                                            window 0)) /\
  (forall bucket_size refill_rate now : Q,
      TokenBucket.__init__ bucket_size refill_rate now
        = Returned (TokenBucket.mk bucket_size refill_rate bucket_size now)) /\
  (forall (bucket_size : Z) (outflow_rate now : Q),
      LeakingBucket.__init__ bucket_size outflow_rate now
        = Returned (LeakingBucket.mk bucket_size outflow_rate [] now)).
Proof.
  split; [|split]; try reflexivity.
  intros W T now HW. unfold FixedWindowCounter.__init__.
  rewrite _get_current_window_eq.
  - eexists. reflexivity.
  - cbn. destruct (Qeq_bool W 0) eqn:E; [|reflexivity].
    apply Qeq_bool_eq in E. contradiction.
Qed.

Lemma C5_construction_unvalidated_witness :
  (exists window : Q,
      FixedWindowCounter.__init__ (-5) 0 (7 # 2)
        = Returned (FixedWindowCounter.mk (-5) 0 window 0)) /\
  TokenBucket.__init__ 0 0 0 = Returned (TokenBucket.mk 0 0 0 0) /\
  LeakingBucket.__init__ 0 0 0 = Returned (LeakingBucket.mk 0 0 [] 0).
Proof.
  destruct C5_construction_unvalidated as (Hwindow & Htoken & Hleak).
  split; [|split].
  - apply (Hwindow (-5) 0%Z (7 # 2)). discriminate.
  - apply (Htoken 0 0 0).
  - apply (Hleak 0%Z 0 0).
Defined.

End Construction.

(** ** Calls that overlap and calls that do not *)

Section Threads.

Import FixedWindowCounter FixedWindowCounterThreads.

(** A thread left alone for the length of a call performs the call. *)
Lemma steps_call (th : thread) (self : t) :
  at_line th = Line43 ->
  steps call_length th self =
    (goto (Done (fst (allow_request (current_time th) (now th) self))) th,
     snd (allow_request (current_time th) (now th) self)).
Proof.
  destruct th as [ct t l]; cbn [at_line]; intros ->.
  unfold call_length, allow_request, _get_current_window, bind, get, lift,
    ret, modify, floordiv.
  cbn [steps step at_line goto current_time now].
  unfold _get_current_window, bind, get, lift, ret, modify, floordiv.
  destruct (Qeq_bool (window_size self) 0);
    cbn [steps step at_line goto current_time now fst snd]; [reflexivity|].
  destruct (Qeq_bool _ (current_window_start self));
    cbn [steps step at_line goto current_time now fst snd negb
         set_request_count set_current_window_start request_count
         request_threshold];
    destruct (_ <? _)%Z; reflexivity.
Qed.

Lemma nth_error_middle {A : Type} (pre post : list A) (x : A) :
  nth_error (pre ++ x :: post) (length pre) = Some x.
Proof. induction pre as [|y pre IH]; cbn; [reflexivity | exact IH]. Qed.

Lemma update_middle {A : Type} (pre post : list A) (x y : A) :
  update (length pre) y (pre ++ x :: post) = pre ++ y :: post.
Proof.
  induction pre as [|z pre IH]; cbn; [reflexivity | now rewrite IH].
Qed.

Lemma run_schedule_app (a b : list nat) :
  forall cfg, run_schedule (a ++ b) cfg = run_schedule b (run_schedule a cfg).
Proof. induction a as [|i a IH]; intros cfg; cbn; [reflexivity | apply IH]. Qed.

Lemma run_schedule_repeat (n : nat) (pre post : list thread) :
  forall (th : thread) (self : t),
    run_schedule (repeat (length pre) n) (pre ++ th :: post, self) =
      (pre ++ fst (steps n th self) :: post, snd (steps n th self)).
Proof.
  induction n as [|n IH]; intros th self; cbn [repeat run_schedule steps].
  - reflexivity.
  - unfold step_thread. rewrite nth_error_middle.
    destruct (step th self) as [th' self']. rewrite update_middle.
    apply IH.
Qed.

(** Threads scheduled one after the other give the results of the calls
    made in sequence, and leave the same object. *)
Lemma serial_calls (readings : list (Q * Q)) :
  forall (pre : list thread) (self : t),
    exists finished : list thread,
      run_schedule (serial (length pre) (length readings))
                   (pre ++ map spawn readings, self) =
        (pre ++ finished, snd (calls readings self)) /\
      results finished = map Done (fst (calls readings self)).
Proof.
  induction readings as [|[ct t] rest IH]; intros pre self.
  - exists []. split; reflexivity.
  - cbn [length serial map calls]. rewrite run_schedule_app.
    rewrite run_schedule_repeat, steps_call by reflexivity.
    cbn [fst snd spawn current_time now].
    destruct (allow_request ct t self) as [r self1]. cbn [fst snd].
    set (th := goto (Done r) (spawn (ct, t))).
    destruct (IH (pre ++ [th]) self1) as (finished & Hrun & Hres).
    rewrite length_app, Nat.add_1_r, <- app_assoc in Hrun.
    cbn [app] in Hrun. rewrite Hrun.
    destruct (calls rest self1) as [rs self2]. cbn [fst snd] in *.
    exists (th :: finished). rewrite <- app_assoc. split; [reflexivity|].
    unfold results in *. cbn [map]. rewrite Hres. reflexivity.
Qed.

End Threads.

Section OneSlotLeft.

(** Fixed window: one admission left in the current window. *)
Lemma window_last_slot (self : FixedWindowCounter.t) (k : Z)
    (ct1 now1 ct2 now2 : Q) :
  0 < FixedWindowCounter.window_size self ->
  FixedWindowCounter.current_window_start self
    == inject_Z k * FixedWindowCounter.window_size self ->
  inject_Z k * FixedWindowCounter.window_size self <= now1 ->
  now1 < inject_Z k * FixedWindowCounter.window_size self
         + FixedWindowCounter.window_size self ->
  inject_Z k * FixedWindowCounter.window_size self <= now2 ->
  now2 < inject_Z k * FixedWindowCounter.window_size self
         + FixedWindowCounter.window_size self ->
  (FixedWindowCounter.request_count self
   = FixedWindowCounter.request_threshold self - 1)%Z ->
  fst (FixedWindowCounter.calls [(ct1, now1); (ct2, now2)] self)
    = [Returned true; Returned false].
Proof.
  destruct self as [W T cws c].
  cbn [FixedWindowCounter.window_size FixedWindowCounter.request_threshold
       FixedWindowCounter.current_window_start
       FixedWindowCounter.request_count].
  intros HW Hcws Hlo1 Hhi1 Hlo2 Hhi2 ->.
  assert (E : Qeq_bool (inject_Z k * W) cws = true)
    by (apply Qeq_eq_bool; symmetry; exact Hcws).
  assert (Et : (T - 1 <? T)%Z = true) by (apply Z.ltb_lt; lia).
  assert (Ef : (T - 1 + 1 <? T)%Z = false) by (apply Z.ltb_ge; lia).
  cbn [FixedWindowCounter.calls].
  rewrite allow_request_eq by (apply Qeq_bool_pos; exact HW).
  cbn [FixedWindowCounter.window_size FixedWindowCounter.request_threshold
       FixedWindowCounter.current_window_start
       FixedWindowCounter.request_count].
  rewrite (Qfloor_window W now1 k HW Hlo1 Hhi1). cbv zeta. rewrite E.
  cbn [FixedWindowCounter.window_size FixedWindowCounter.request_threshold
       FixedWindowCounter.current_window_start
       FixedWindowCounter.request_count
       FixedWindowCounter.set_request_count].
  rewrite Et.
  rewrite allow_request_eq by (apply Qeq_bool_pos; exact HW).
  cbn [FixedWindowCounter.window_size FixedWindowCounter.request_threshold
       FixedWindowCounter.current_window_start
       FixedWindowCounter.request_count
       FixedWindowCounter.set_request_count].
  rewrite (Qfloor_window W now2 k HW Hlo2 Hhi2). cbv zeta. rewrite E.
  cbn [FixedWindowCounter.window_size FixedWindowCounter.request_threshold
       FixedWindowCounter.current_window_start
       FixedWindowCounter.request_count
       FixedWindowCounter.set_request_count].
  rewrite Ef. reflexivity.
Qed.

(** Token bucket: tokens for one request of this cost, not for two. *)
Lemma bucket_last_token (self : TokenBucket.t) (now cost : Q) :
  let level := TokenBucket.tokens (snd (TokenBucket._refill now self)) in
  cost <= level -> level < cost + cost ->
  fst (TokenBucket.calls [(now, cost); (now, cost)] self)
    = [Returned true; Returned false].
Proof.
  intros level Hone Htwo. cbn [TokenBucket.calls].
  rewrite allow_request_refill. cbv zeta. fold level.
  replace (ge level cost) with true
    by (symmetry; apply Qle_bool_iff; exact Hone).
  rewrite allow_request_refill. cbv zeta.
  rewrite !_refill_eq in *.
  cbn [snd TokenBucket.tokens TokenBucket.set_tokens TokenBucket.bucket_size
       TokenBucket.refill_rate TokenBucket.last_refill_time] in *.
  match goal with |- context [ge ?a cost] =>
    assert (Hlow : a < cost);
    [ apply Qle_lt_trans with (level - cost + (now - now) * TokenBucket.refill_rate self);
      [ apply min_le_r | ]
    | destruct (ge a cost) eqn:E ]
  end.
  - assert (Z0 : (now - now) * TokenBucket.refill_rate self == 0) by ring.
    rewrite Z0. lra.
  - apply Qle_bool_iff in E. lra.
  - reflexivity.
Qed.

(** Leaking bucket: one free slot, and no drain interval completes
    before the second call. *)
Lemma queue_last_slot (self : LeakingBucket.t) (now1 stamp1 now2 stamp2 : Q) :
  0 < LeakingBucket.outflow_rate self ->
  LeakingBucket.last_processed_time self <= now1 -> now1 <= now2 ->
  (now2 - LeakingBucket.last_processed_time self)
    * LeakingBucket.outflow_rate self < 1 ->
  (Z.of_nat (length (LeakingBucket.queue self))
   = LeakingBucket.bucket_size self - 1)%Z ->
  fst (LeakingBucket.calls [(now1, stamp1); (now2, stamp2)] self)
    = [Returned true; Returned false].
Proof.
  intros Hr Hlast Hmono Hshort Hlen.
  set (L := LeakingBucket.last_processed_time self) in *.
  set (r := LeakingBucket.outflow_rate self) in *.
  assert (H2 : 0 <= (now2 - L) * r) by (apply Qmult_le_0_compat; lra).
  assert (H1 : 0 <= (now1 - L) * r) by (apply Qmult_le_0_compat; lra).
  assert (H12 : (now1 - L) * r <= (now2 - L) * r)
    by (apply Qmult_le_compat_r; lra).
  assert (N1 : Qfloor ((now1 - L) * r) = 0%Z)
    by (apply Qfloor_between; [exact H1 | change (inject_Z 0) with 0; lra]).
  destruct (drain_step now1 self Hr Hlast) as (D1 & _).
  fold L r in D1. rewrite N1 in D1.
  cbn [LeakingBucket.calls].
  rewrite add_request_drained, D1.
  cbn [LeakingBucket.popleft_loop Z.to_nat LeakingBucket.queue
       LeakingBucket.bucket_size].
  replace (_ <? _)%Z with true by (symmetry; apply Z.ltb_lt; lia).
  match goal with |- context [LeakingBucket.add_request now2 stamp2 ?s] =>
    set (self1 := s) end.
  assert (E0 : L + inject_Z 0 / r == L) by (field; lra).
  assert (Hlast1 : LeakingBucket.last_processed_time self1 <= now2)
    by (cbn; rewrite E0; lra).
  destruct (drain_step now2 self1 Hr Hlast1) as (D2 & _).
  cbn [self1 LeakingBucket.set_queue LeakingBucket.last_processed_time
       LeakingBucket.outflow_rate LeakingBucket.bucket_size
       LeakingBucket.queue] in D2.
  fold r in D2.
  assert (N2 : Qfloor ((now2 - (L + inject_Z 0 / r)) * r) = 0%Z).
  { apply Qfloor_between; rewrite E0;
      [exact H2 | change (inject_Z 0) with 0; lra]. }
  rewrite N2 in D2.
  rewrite add_request_drained, D2.
  cbn [LeakingBucket.popleft_loop Z.to_nat LeakingBucket.queue
       LeakingBucket.bucket_size].
  rewrite length_app. cbn [length].
  replace (_ <? _)%Z with false by (symmetry; apply Z.ltb_ge; lia).
  reflexivity.
Qed.

End OneSlotLeft.

Section Overlap.

Import FixedWindowCounterThreads.

(** C10, as stated, fails: nothing makes a call atomic.  Two threads call
    [allow_request] at the same instant on a fresh limiter of threshold 1;
    each passes the test of line 50 before the other increments the
    count; both return [True] and the count is left at 2. *)
Lemma C10_overlapping_calls_counterexample :
  exists fresh : FixedWindowCounter.t,
    FixedWindowCounter.__init__ 5 1 0 = Returned fresh /\
    let cfg :=
      run_schedule [0; 0; 0; 0; 1; 1; 1; 1; 0; 0; 1; 1]%nat
                   ([spawn (0, 0); spawn (0, 0)], fresh) in
    results (fst cfg) = [Done (Returned true); Done (Returned true)] /\
    FixedWindowCounter.request_threshold (snd cfg) = 1%Z /\
    FixedWindowCounter.request_count (snd cfg) = 2%Z.
Proof.
  eexists; split; [reflexivity|]. repeat split.
Qed.

(** C10, amended.  The source takes no lock; the recomputation, the test
    and the mutation of a call are one atomic unit only when no other
    call on the object runs in between.  Threads that run their calls one
    after the other obtain the results of the sequential calls and leave
    the same object; and of two calls made one after the other, only the
    first is admitted when a single slot of the window, tokens for a
    single request, or a single slot of the queue were available. *)
Theorem C10_calls_in_sequence :
  (forall (readings : list (Q * Q)) (self : FixedWindowCounter.t),
      let cfg := run_schedule (serial 0 (length readings))
                              (map spawn readings, self) in
      results (fst cfg) = map Done (fst (FixedWindowCounter.calls readings self)) /\
      snd cfg = snd (FixedWindowCounter.calls readings self)) /\
  (forall (self : FixedWindowCounter.t) (k : Z) (ct1 now1 ct2 now2 : Q),
      0 < FixedWindowCounter.window_size self ->
      FixedWindowCounter.current_window_start self
        == inject_Z k * FixedWindowCounter.window_size self ->
      inject_Z k * FixedWindowCounter.window_size self <= now1 ->
      now1 < inject_Z k * FixedWindowCounter.window_size self
             + FixedWindowCounter.window_size self ->
      inject_Z k * FixedWindowCounter.window_size self <= now2 ->
      now2 < inject_Z k * FixedWindowCounter.window_size self
             + FixedWindowCounter.window_size self ->
      (FixedWindowCounter.request_count self
       = FixedWindowCounter.request_threshold self - 1)%Z ->
      fst (FixedWindowCounter.calls [(ct1, now1); (ct2, now2)] self)
        = [Returned true; Returned false]) /\
  (forall (self : TokenBucket.t) (now cost : Q),
      cost <= TokenBucket.tokens (snd (TokenBucket._refill now self)) ->
      TokenBucket.tokens (snd (TokenBucket._refill now self)) < cost + cost ->
      fst (TokenBucket.calls [(now, cost); (now, cost)] self)
        = [Returned true; Returned false]) /\
  (forall (self : LeakingBucket.t) (now1 stamp1 now2 stamp2 : Q),
      0 < LeakingBucket.outflow_rate self ->
      LeakingBucket.last_processed_time self <= now1 -> now1 <= now2 ->
      (now2 - LeakingBucket.last_processed_time self)
        * LeakingBucket.outflow_rate self < 1 ->
      (Z.of_nat (length (LeakingBucket.queue self))
       = LeakingBucket.bucket_size self - 1)%Z ->
      fst (LeakingBucket.calls [(now1, stamp1); (now2, stamp2)] self)
        = [Returned true; Returned false]).
Proof.
  split; [|split; [|split]].
  - intros readings self.
    destruct (serial_calls readings [] self) as (finished & Hrun & Hres).
    cbn [length app] in Hrun. cbv zeta. rewrite Hrun.
    cbn [fst snd]. split; [exact Hres | reflexivity].
  - exact window_last_slot.
  - exact bucket_last_token.
  - exact queue_last_slot.
Qed.

Lemma C10_calls_in_sequence_witness :
  fst (FixedWindowCounter.calls [(1, 1); (2, 2)] (FixedWindowCounter.mk 5 3 0 2))
    = [Returned true; Returned false] /\
  fst (TokenBucket.calls [(1, 1); (1, 1)] (TokenBucket.mk 5 1 (1 # 2) 0))
    = [Returned true; Returned false] /\
  fst (LeakingBucket.calls [(0, 0); (1 # 2, 1 # 2)] (LeakingBucket.mk 3 1 [0; 0] 0))
    = [Returned true; Returned false].
Proof.
  destruct C10_calls_in_sequence as (_ & Hwindow & Htoken & Hleak).
  split; [|split].
  - apply (Hwindow (FixedWindowCounter.mk 5 3 0 2) 0%Z 1 1 2 2);
      first [reflexivity | discriminate].
  - apply (Htoken (TokenBucket.mk 5 1 (1 # 2) 0) 1 1);
      first [reflexivity | discriminate].
  - apply (Hleak (LeakingBucket.mk 3 1 [0; 0] 0) 0 0 (1 # 2) (1 # 2));
      first [reflexivity | discriminate].
Defined.

End Overlap.

(** * Further properties of the three classes *)

(** ** Fixed window counter: windows *)

Section WindowStart.

Import FixedWindowCounter.

(** Where [_get_current_window] puts a reading. *)
Lemma _get_current_window_bounds (now : Q) (self : t) :
  0 < window_size self ->
  (exists k : Z,
      _get_current_window now self
        = (Returned (inject_Z k * window_size self), self) /\
      inject_Z k * window_size self <= now /\
      now < inject_Z k * window_size self + window_size self) /\
  (forall k : Z,
      _get_current_window (inject_Z k * window_size self) self
        = (Returned (inject_Z k * window_size self), self)).
Proof.
  intros HW. split.
  - exists (Qfloor (now / window_size self)).
    rewrite _get_current_window_eq by (apply Qeq_bool_pos; exact HW).
    split; [reflexivity|].
    assert (E : now == now / window_size self * window_size self)
      by (field; lra).
    pose proof (Qfloor_le (now / window_size self)) as Hlo.
    pose proof (Qlt_floor (now / window_size self)) as Hhi.
    rewrite inject_Z_plus in Hhi. change (inject_Z 1) with 1 in Hhi.
    split.
    + rewrite E at 2. apply Qmult_le_compat_r; [exact Hlo | lra].
    + rewrite E at 1.
      setoid_replace (inject_Z (Qfloor (now / window_size self)) * window_size self
                      + window_size self)
        with ((inject_Z (Qfloor (now / window_size self)) + 1) * window_size self)
        by ring.
      apply Qmult_lt_compat_r; assumption.
  - intros k.
    rewrite _get_current_window_eq by (apply Qeq_bool_pos; exact HW).
    rewrite (Qfloor_window (window_size self) _ k HW); [reflexivity | lra | lra].
Qed.

(** For a whole-number window size [> 0], as the source documents it,
    [_get_current_window] leaves the object alone and returns a whole
    multiple of the window size, at most one window size below the clock
    reading; a reading that is itself such a multiple is its own window
    start. *)
Theorem window_start_aligned (now : Q) (self : t) (w : Z) :
  window_size self = inject_Z w -> (0 < w)%Z ->
  (exists k : Z,
      _get_current_window now self
        = (Returned (inject_Z k * window_size self), self) /\
      inject_Z k * window_size self <= now /\
      now < inject_Z k * window_size self + window_size self) /\
  (forall k : Z,
      _get_current_window (inject_Z k * window_size self) self
        = (Returned (inject_Z k * window_size self), self)).
Proof.
  intros Hw Hpos. apply _get_current_window_bounds.
  rewrite Hw. unfold Qlt; simpl. lia.
Qed.

Lemma window_start_aligned_witness :
  (exists k : Z,
      _get_current_window (27 # 2) (mk 5 1 0 0)
        = (Returned (inject_Z k * 5), mk 5 1 0 0) /\
      inject_Z k * 5 <= (27 # 2) /\ (27 # 2) < inject_Z k * 5 + 5) /\
  (forall k : Z,
      _get_current_window (inject_Z k * 5) (mk 5 1 0 0)
        = (Returned (inject_Z k * 5), mk 5 1 0 0)).
Proof.
  apply (window_start_aligned (27 # 2) (mk 5 1 0 0) 5); [reflexivity | lia].
Defined.

Lemma __init___cases (W : Q) (T : Z) (now : Q) :
  (W == 0 /\ __init__ W T now = Raised ZeroDivisionError) \/
  (~ W == 0 /\ exists fresh : t, __init__ W T now = Returned fresh).
Proof.
  destruct (Qeq_bool W 0) eqn:E.
  - left. split; [apply Qeq_bool_eq; exact E|].
    unfold __init__, _get_current_window, bind, get, lift, floordiv.
    cbn [window_size]. rewrite E. reflexivity.
  - right. split; [apply Qeq_bool_neq; exact E|].
    unfold __init__. rewrite _get_current_window_eq by exact E.
    eexists; reflexivity.
Qed.

Lemma allow_request_cases (current_time now : Q) (self : t) :
  (window_size self == 0 /\
   allow_request current_time now self = (Raised ZeroDivisionError, self)) \/
  (~ window_size self == 0 /\
   exists (b : bool) (self' : t),
     allow_request current_time now self = (Returned b, self')).
Proof.
  destruct (Qeq_bool (window_size self) 0) eqn:E.
  - left. split; [apply Qeq_bool_eq; exact E|].
    unfold allow_request, _get_current_window, bind, get, lift, floordiv.
    rewrite E. reflexivity.
  - right. split; [apply Qeq_bool_neq; exact E|].
    rewrite allow_request_eq by exact E. cbv zeta.
    destruct (_ <? _)%Z; do 2 eexists; reflexivity.
Qed.

(** Construction and [allow_request] raise exactly when the window size is
    zero, and the exception is then [ZeroDivisionError], the object of the
    call untouched. *)
Theorem zero_window_size_raises (W : Q) (T : Z) (current_time now : Q) (self : t) :
  (W == 0 <-> __init__ W T now = Raised ZeroDivisionError) /\
  (~ W == 0 <-> exists fresh : t, __init__ W T now = Returned fresh) /\
  (window_size self == 0 <->
   allow_request current_time now self = (Raised ZeroDivisionError, self)) /\
  (~ window_size self == 0 <->
   exists (b : bool) (self' : t),
     allow_request current_time now self = (Returned b, self')).
Proof.
  destruct (__init___cases W T now) as [[HW Hi]|[HW [fresh Hi]]];
    destruct (allow_request_cases current_time now self)
      as [[Hs Hc]|[Hs (b & self' & Hc)]];
    rewrite Hi, Hc; repeat split; intros H;
    try assumption; try contradiction; try discriminate;
    try (now exists fresh); try (now exists b, self');
    try (destruct H as [f Hf]; discriminate);
    try (destruct H as (r & s & Hr); discriminate).
Qed.

Lemma zero_window_size_raises_witness :
  __init__ 0 3 7 = Raised ZeroDivisionError /\
  exists fresh : t, __init__ 5 3 7 = Returned fresh.
Proof.
  split.
  - apply (proj1 (zero_window_size_raises 0 3 7 7 (mk 5 3 0 0))). reflexivity.
  - apply (proj1 (proj2 (zero_window_size_raises 5 3 7 7 (mk 5 3 0 0)))).
    discriminate.
Defined.

End WindowStart.

Section WindowRuns.

Import FixedWindowCounter.

Lemma calls_app (a b : list (Q * Q)) :
  forall self : t,
    calls (a ++ b) self =
      (fst (calls a self) ++ fst (calls b (snd (calls a self))),
       snd (calls b (snd (calls a self)))).
Proof.
  induction a as [|[ct now] a IH]; intros self; cbn [app calls].
  - cbn. destruct (calls b self); reflexivity.
  - destruct (allow_request ct now self) as [r self1].
    rewrite IH. destruct (calls a self1) as [ra self2]. cbn [fst snd].
    destruct (calls b self2); reflexivity.
Qed.

(** One call whose reading lies in the window starting at [k * W]. *)
Lemma allow_request_in_window (k : Z) (ct now : Q) (self : t) :
  0 < window_size self ->
  inject_Z k * window_size self <= now ->
  now < inject_Z k * window_size self + window_size self ->
  let here := Qeq_bool (inject_Z k * window_size self) (current_window_start self) in
  let used := if here then request_count self else 0%Z in
  allow_request ct now self =
    (Returned (used <? request_threshold self)%Z,
     mk (window_size self) (request_threshold self)
        (if here then current_window_start self else inject_Z k * window_size self)
        (if (used <? request_threshold self)%Z then used + 1 else used)).
Proof.
  intros HW Hlo Hhi here used.
  rewrite allow_request_eq by (apply Qeq_bool_pos; exact HW).
  rewrite (Qfloor_window _ _ k HW Hlo Hhi). cbv zeta.
  subst used here. destruct self as [W T cws c]; cbn.
  destruct (Qeq_bool (inject_Z k * W) cws); cbn;
    destruct (_ <? T)%Z; reflexivity.
Qed.

(** A run of calls inside one window. *)
Lemma calls_one_window (k : Z) (readings : list (Q * Q)) :
  forall self : t,
    0 < window_size self ->
    Forall (fun r => inject_Z k * window_size self <= snd r
                     /\ snd r < inject_Z k * window_size self + window_size self)
           readings ->
    let used :=
      if Qeq_bool (inject_Z k * window_size self) (current_window_start self)
      then request_count self else 0%Z in
    (used <= request_threshold self)%Z ->
    let left := Z.to_nat (request_threshold self - used) in
    let self' := snd (calls readings self) in
    fst (calls readings self) =
      repeat (Returned true) (Nat.min (length readings) left)
      ++ repeat (Returned false) (length readings - left) /\
    window_size self' = window_size self /\
    request_threshold self' = request_threshold self /\
    (readings <> [] ->
     Qeq_bool (inject_Z k * window_size self) (current_window_start self') = true /\
     request_count self'
       = (used + Z.of_nat (Nat.min (length readings) left))%Z).
Proof.
  induction readings as [|[ct now] rest IH]; intros self HW Hin used Hused left self'.
  - cbn. split; [reflexivity|]. split; [reflexivity|]. split; [reflexivity|].
    intros Hne; contradiction.
  - inversion Hin as [|r l [Hlo Hhi] Hrest]; subst r l. cbn [snd] in Hlo, Hhi.
    subst self'. cbn [calls length].
    rewrite (allow_request_in_window k ct now self HW Hlo Hhi). cbv zeta.
    fold used.
    set (self1 := mk _ _ _ _).
    assert (E1 : Qeq_bool (inject_Z k * window_size self)
                          (current_window_start self1) = true).
    { subst self1; cbn. destruct (Qeq_bool _ (current_window_start self)) eqn:E;
        [exact E | apply Qeq_bool_refl]. }
    specialize (IH self1 HW Hrest). cbv zeta in IH.
    cbn [self1 window_size request_threshold request_count] in IH.
    replace (current_window_start
               (mk (window_size self) (request_threshold self)
                   (if Qeq_bool (inject_Z k * window_size self)
                                (current_window_start self)
                    then current_window_start self
                    else inject_Z k * window_size self)
                   (if (used <? request_threshold self)%Z
                    then (used + 1)%Z else used)))
      with (current_window_start self1) in IH by reflexivity.
    rewrite E1 in IH.
    destruct (calls rest self1) as [rs s'] eqn:Ecalls. cbn [fst snd] in *.
    destruct (used <? request_threshold self)%Z eqn:Et;
      [apply Z.ltb_lt in Et | apply Z.ltb_ge in Et];
      (destruct IH as (Hres & HW' & HT' & Hst); [lia|]); rewrite Hres.
    + replace left with (S (Z.to_nat (request_threshold self - (used + 1))))
        by (subst left; lia).
      cbn [Nat.min Nat.sub repeat app].
      split; [reflexivity|]. split; [exact HW'|]. split; [exact HT'|].
      intros _. destruct rest as [|r' rest'].
      * cbn in Ecalls. inversion Ecalls; subst s' rs. cbn [length Nat.min].
        split; [exact E1 | subst self1; cbn; lia].
      * destruct Hst as [Hw Hc]; [discriminate|].
        split; [exact Hw | rewrite Hc; lia].
    + replace left with O by (subst left; lia).
      replace (Z.to_nat (request_threshold self - used)) with O in * by lia.
      rewrite !Nat.min_0_r in *. rewrite Nat.sub_0_r in *.
      cbn [Nat.sub repeat app].
      split; [reflexivity|]. split; [exact HW'|]. split; [exact HT'|].
      intros _. destruct rest as [|r' rest'].
      * cbn in Ecalls. inversion Ecalls; subst s' rs.
        split; [exact E1 | subst self1; cbn; lia].
      * destruct Hst as [Hw Hc]; [discriminate|].
        split; [exact Hw | rewrite Hc; lia].
Qed.

(** Within one window the limiter serves first come, first served: of calls
    whose readings all lie in the window starting at [k * window_size],
    those that the threshold still allows are admitted, in order, and every
    later one is rejected.  The count already used is the object's count if
    it stands in that window, and [0] if the first call rolls it over. *)
Theorem window_admits_first_calls (k : Z) (readings : list (Q * Q)) :
  forall self : t,
    0 < window_size self ->
    Forall (fun r => inject_Z k * window_size self <= snd r
                     /\ snd r < inject_Z k * window_size self + window_size self)
           readings ->
    let used :=
      if Qeq_bool (inject_Z k * window_size self) (current_window_start self)
      then request_count self else 0%Z in
    (used <= request_threshold self)%Z ->
    let left := Z.to_nat (request_threshold self - used) in
    let self' := snd (calls readings self) in
    fst (calls readings self) =
      repeat (Returned true) (Nat.min (length readings) left)
      ++ repeat (Returned false) (length readings - left) /\
    window_size self' = window_size self /\
    request_threshold self' = request_threshold self /\
    (readings <> [] ->
     Qeq_bool (inject_Z k * window_size self) (current_window_start self') = true /\
     request_count self'
       = (used + Z.of_nat (Nat.min (length readings) left))%Z).
Proof. exact (calls_one_window k readings). Qed.

Lemma window_admits_first_calls_witness :
  fst (calls [(1, 1); (2, 2); (3, 3); (4, 4)] (mk 5 3 0 1))
    = [Returned true; Returned true; Returned false; Returned false].
Proof.
  apply (window_admits_first_calls 0 [(1, 1); (2, 2); (3, 3); (4, 4)] (mk 5 3 0 1)).
  - reflexivity.
  - repeat constructor; discriminate.
  - discriminate.
Defined.

Lemma window_index_inj (W : Q) (a b : Z) :
  0 < W -> inject_Z a * W == inject_Z b * W -> a = b.
Proof.
  intros HW H. apply inject_Z_injective.
  apply Qmult_inj_r with W; [lra | exact H].
Qed.

Lemma window_index_le (W t : Q) (a b : Z) :
  0 < W -> inject_Z a * W <= t -> t < inject_Z b * W + W -> (a <= b)%Z.
Proof.
  intros HW Hlo Hhi. apply Z.lt_succ_r. rewrite Zlt_Qlt.
  unfold Z.succ. rewrite inject_Z_plus. change (inject_Z 1) with 1.
  apply Qmult_lt_r with W; [exact HW|]. lra.
Qed.

(** The spike at a window edge that the source lists among its drawbacks:
    a full quota of calls anywhere in one window followed by a full quota
    anywhere in another window, however close the last of the first to the
    first of the second, is admitted entirely: twice the threshold. *)
Theorem window_edge_burst (W : Q) (T : Z) (t0 : Q) (k1 k2 : Z)
    (batch1 batch2 : list (Q * Q)) :
  0 < W -> (0 <= T)%Z -> k1 <> k2 ->
  length batch1 = Z.to_nat T -> length batch2 = Z.to_nat T ->
  Forall (fun r => inject_Z k1 * W <= snd r /\ snd r < inject_Z k1 * W + W) batch1 ->
  Forall (fun r => inject_Z k2 * W <= snd r /\ snd r < inject_Z k2 * W + W) batch2 ->
  exists fresh : t,
    __init__ W T t0 = Returned fresh /\
    fst (calls (batch1 ++ batch2) fresh)
      = repeat (Returned true) (Z.to_nat T + Z.to_nat T).
Proof.
  intros HW HT Hk L1 L2 H1 H2. rewrite (__init___eq W T t0 HW).
  eexists; split; [reflexivity|].
  set (fresh := mk W T _ 0). rewrite calls_app. cbn [fst].
  destruct (calls_one_window k1 batch1 fresh HW H1) as (R1 & W1 & T1 & S1).
  { cbn. destruct (Qeq_bool _ _); exact HT. }
  cbn [fresh window_size request_threshold request_count
       current_window_start] in R1, W1, T1, S1.
  replace (if Qeq_bool (inject_Z k1 * W) (inject_Z (Qfloor (t0 / W)) * W)
           then 0%Z else 0%Z) with 0%Z in R1, S1
    by (destruct (Qeq_bool _ _); reflexivity).
  rewrite Z.sub_0_r, L1, Nat.min_id, Nat.sub_diag in R1.
  rewrite Z.sub_0_r, L1, Nat.min_id in S1.
  cbn [repeat] in R1. rewrite app_nil_r in R1. rewrite R1.
  set (self1 := snd (calls batch1 fresh)) in *.
  assert (HW1 : 0 < window_size self1) by (rewrite W1; exact HW).
  rewrite <- W1 in H2.
  destruct (calls_one_window k2 batch2 self1 HW1 H2) as (R2 & _).
  { rewrite T1, W1. destruct batch1 as [|r1 b1].
    - subst self1. cbn [calls snd fresh request_count]. cbn in L1.
      destruct (Qeq_bool (inject_Z k2 * W) _); lia.
    - destruct S1 as [E1 _]; [discriminate|].
      replace (Qeq_bool (inject_Z k2 * W) (current_window_start self1)) with false;
        [exact HT|].
      symmetry. destruct (Qeq_bool (inject_Z k2 * W) _) eqn:E2; [|reflexivity].
      exfalso. apply Hk. apply (window_index_inj W); [exact HW|].
      apply Qeq_bool_eq in E1. apply Qeq_bool_eq in E2. rewrite E1, E2. reflexivity. }
  rewrite R2, T1, W1, L2. rewrite repeat_app. f_equal.
  assert (Eused : (if Qeq_bool (inject_Z k2 * W) (current_window_start self1)
                   then request_count self1 else 0%Z) = 0%Z).
  { destruct batch1 as [|r1 b1].
    - subst self1. cbn [calls snd fresh request_count].
      destruct (Qeq_bool (inject_Z k2 * W) _); reflexivity.
    - destruct S1 as [E1 _]; [discriminate|].
      destruct (Qeq_bool (inject_Z k2 * W) _) eqn:E2; [|reflexivity].
      exfalso. apply Hk. apply (window_index_inj W); [exact HW|].
      apply Qeq_bool_eq in E1. apply Qeq_bool_eq in E2. rewrite E1, E2. reflexivity. }
  rewrite Eused, Z.sub_0_r, Nat.min_id, Nat.sub_diag. cbn [repeat].
  apply app_nil_r.
Qed.

Lemma window_edge_burst_witness :
  exists fresh : t,
    __init__ 5 2 0 = Returned fresh /\
    fst (calls ([(4, 4); (499 # 100, 499 # 100)] ++ [(5, 5); (501 # 100, 501 # 100)]) fresh)
      = repeat (Returned true) (Z.to_nat 2 + Z.to_nat 2).
Proof.
  apply (window_edge_burst 5 2 0 0 1
           [(4, 4); (499 # 100, 499 # 100)] [(5, 5); (501 # 100, 501 # 100)]).
  - reflexivity.
  - lia.
  - lia.
  - reflexivity.
  - reflexivity.
  - repeat constructor; discriminate.
  - repeat constructor; discriminate.
Defined.

End WindowRuns.

Section WindowInvariant.

Import FixedWindowCounter.

Lemma last_cons {A : Type} (l : list A) :
  forall a d : A, last (a :: l) d = last l a.
Proof.
  induction l as [|b l IH]; intros a d; [reflexivity|].
  change (last (a :: b :: l) d) with (last (b :: l) d).
  rewrite (IH b d), (IH b a). reflexivity.
Qed.

(** The state after one call, in terms of the window [k] of its reading. *)
Lemma allow_request_window_state (ct now : Q) (self : t) :
  0 < window_size self ->
  (0 <= request_count self <= request_threshold self)%Z ->
  exists (k : Z) (b : bool) (self' : t),
    allow_request ct now self = (Returned b, self') /\
    inject_Z k * window_size self <= now /\
    now < inject_Z k * window_size self + window_size self /\
    window_size self' = window_size self /\
    request_threshold self' = request_threshold self /\
    current_window_start self' == inject_Z k * window_size self /\
    (0 <= request_count self' <= request_threshold self)%Z /\
    (current_window_start self == inject_Z k * window_size self ->
     request_count self' = (request_count self + if b then 1 else 0)%Z) /\
    (~ current_window_start self == inject_Z k * window_size self ->
     request_count self' = (if b then 1 else 0)%Z).
Proof.
  intros HW Hc.
  destruct (_get_current_window_bounds now self HW) as [(k & _ & Hlo & Hhi) _].
  exists k. rewrite (allow_request_in_window k ct now self HW Hlo Hhi). cbv zeta.
  destruct (Qeq_bool (inject_Z k * window_size self) (current_window_start self)) eqn:E;
    [apply Qeq_bool_eq in E | apply Qeq_bool_neq in E];
    destruct (_ <? request_threshold self)%Z eqn:Et;
    [apply Z.ltb_lt in Et | apply Z.ltb_ge in Et
    |apply Z.ltb_lt in Et | apply Z.ltb_ge in Et];
    do 2 eexists; (split; [reflexivity|]);
    cbn [window_size request_threshold current_window_start request_count];
    (split; [exact Hlo|]); (split; [exact Hhi|]);
    (split; [reflexivity|]); (split; [reflexivity|]);
    (split; [first [symmetry; exact E | reflexivity]|]);
    (split; [lia|]);
    split; intros H; first [lia | reflexivity | (exfalso; apply E; symmetry; exact H)
                           | (exfalso; apply H; symmetry; exact E)].
Qed.

Lemma calls_window_invariant (readings : list (Q * Q)) :
  forall (self : t) (seen : Q),
    0 < window_size self ->
    (0 <= request_count self <= request_threshold self)%Z ->
    (exists k : Z, current_window_start self == inject_Z k * window_size self) ->
    current_window_start self <= seen ->
    seen < current_window_start self + window_size self ->
    let self' := snd (calls readings self) in
    let seen' := last (map snd readings) seen in
    window_size self' = window_size self /\
    request_threshold self' = request_threshold self /\
    (0 <= request_count self' <= request_threshold self)%Z /\
    (exists k : Z, current_window_start self' == inject_Z k * window_size self) /\
    current_window_start self' <= seen' /\
    seen' < current_window_start self' + window_size self.
Proof.
  induction readings as [|[ct now] rest IH]; intros self seen HW Hc Hk Hlo Hhi.
  - cbn. repeat split; try assumption; lia.
  - cbn [calls map snd]. rewrite last_cons.
    destruct (allow_request_window_state ct now self HW Hc)
      as (k & b & s1 & Hcall & Hlo1 & Hhi1 & W1 & T1 & E1 & C1 & _).
    rewrite Hcall.
    specialize (IH s1 now). destruct (calls rest s1) as [rs s2].
    cbn [snd] in *. rewrite W1, T1 in IH. apply IH.
    + exact HW.
    + exact C1.
    + exists k. exact E1.
    + rewrite E1. exact Hlo1.
    + rewrite E1. exact Hhi1.
Qed.

Lemma reachable_window_state (W : Q) (T : Z) (t0 : Q)
    (readings : list (Q * Q)) :
  0 < W -> (0 <= T)%Z ->
  exists fresh : t,
    __init__ W T t0 = Returned fresh /\
    let self := snd (calls readings fresh) in
    let seen := last (map snd readings) t0 in
    (0 <= request_count self <= T)%Z /\
    (exists k : Z, current_window_start self == inject_Z k * W) /\
    current_window_start self <= seen /\
    seen < current_window_start self + W.
Proof.
  intros HW HT. rewrite (__init___eq W T t0 HW).
  eexists; split; [reflexivity|].
  destruct (_get_current_window_bounds t0 (mk W T 0 0) HW) as [(k & _ & Hlo & Hhi) _].
  cbn [window_size] in Hlo, Hhi.
  rewrite (Qfloor_window W t0 k HW Hlo Hhi).
  set (fresh := mk W T (inject_Z k * W) 0).
  destruct (calls_window_invariant readings fresh t0) as (_ & _ & Hc & Hal & Hl & Hh);
    cbn [fresh window_size request_threshold request_count current_window_start].
  - exact HW.
  - lia.
  - eexists; reflexivity.
  - exact Hlo.
  - exact Hhi.
  - cbv zeta. repeat split; try assumption; apply Hc.
Qed.

(** What every reachable limiter of a whole-number window size [> 0] and
    a threshold [>= 0] satisfies: the count is between [0] and the
    threshold, and the window start is a whole multiple of the window size
    whose window contains the last clock reading the limiter has seen. *)
Theorem window_counter_invariant (w T : Z) (t0 : Q)
    (readings : list (Q * Q)) :
  (0 < w)%Z -> (0 <= T)%Z ->
  exists fresh : t,
    __init__ (inject_Z w) T t0 = Returned fresh /\
    let self := snd (calls readings fresh) in
    let seen := last (map snd readings) t0 in
    (0 <= request_count self <= T)%Z /\
    (exists k : Z, current_window_start self == inject_Z k * inject_Z w) /\
    current_window_start self <= seen /\
    seen < current_window_start self + inject_Z w.
Proof.
  intros Hw HT. apply reachable_window_state; [|exact HT].
  unfold Qlt; simpl. lia.
Qed.

Lemma window_counter_invariant_witness :
  exists fresh : t,
    __init__ (inject_Z 5) 2 0 = Returned fresh /\
    let self := snd (calls [(1, 1); (12, 12); (13, 13); (14, 14)] fresh) in
    let seen := last (map snd [(1, 1); (12, 12); (13, 13); (14, 14)]) 0 in
    (0 <= request_count self <= 2)%Z /\
    (exists k : Z, current_window_start self == inject_Z k * inject_Z 5) /\
    current_window_start self <= seen /\
    seen < current_window_start self + inject_Z 5.
Proof.
  apply (window_counter_invariant 5 2 0 [(1, 1); (12, 12); (13, 13); (14, 14)]);
    lia.
Defined.

End WindowInvariant.

Section WindowThroughput.

Import FixedWindowCounter.

Lemma admissions_cons (b : bool) (rs : list (outcome bool)) :
  admissions (Returned b :: rs) = ((if b then 1 else 0) + admissions rs)%nat.
Proof. destruct b; reflexivity. Qed.

(** With a clock that never goes back, each admission is paid for either by
    the count of the current window or by a whole threshold for each window
    left behind. *)
Lemma calls_window_potential (readings : list (Q * Q)) :
  forall (self : t) (start : Q) (k0 : Z),
    0 < window_size self ->
    (0 <= request_count self <= request_threshold self)%Z ->
    current_window_start self == inject_Z k0 * window_size self ->
    inject_Z k0 * window_size self <= start ->
    monotonic start (map snd readings) ->
    exists kf : Z,
      inject_Z kf * window_size self <= last (map snd readings) start /\
      (Z.of_nat (admissions (fst (calls readings self)))
       + request_threshold self * k0 + request_count self
       <= request_threshold self * kf + request_threshold self)%Z.
Proof.
  induction readings as [|[ct now] rest IH]; intros self start k0 HW Hc Hk Hs Hmono.
  - exists k0. cbn. split; [exact Hs | lia].
  - cbn [calls map snd] in *. rewrite last_cons. destruct Hmono as [Hnow Hmono].
    destruct (allow_request_window_state ct now self HW Hc)
      as (k & b & s1 & Hcall & Hlo1 & Hhi1 & W1 & T1 & E1 & C1 & Hsame & Hnew).
    rewrite Hcall.
    assert (Hle : (k0 <= k)%Z)
      by (apply (window_index_le (window_size self) now); [exact HW | lra | exact Hhi1]).
    specialize (IH s1 now k). destruct (calls rest s1) as [rs s2].
    cbn [fst snd] in *. rewrite W1, T1 in IH.
    destruct IH as (kf & Hkf & Hpot); try assumption.
    exists kf. split; [exact Hkf|].
    rewrite admissions_cons, Nat2Z.inj_add.
    destruct (Z.eq_dec k k0) as [->|Hne].
    + rewrite (Hsame Hk) in Hpot. destruct b; cbn [Z.of_nat] in *; lia.
    + assert (Hfar : ~ current_window_start self == inject_Z k * window_size self).
      { intros H. apply Hne. apply (window_index_inj (window_size self)); [exact HW|].
        rewrite <- H, Hk. reflexivity. }
      rewrite (Hnew Hfar) in Hpot.
      assert (request_threshold self * (k0 + 1) <= request_threshold self * k)%Z
        by (apply Z.mul_le_mono_nonneg_l; lia).
      destruct b; cbn [Z.of_nat] in *; lia.
Qed.

(** The rate guarantee of the fixed window.  With a clock that never goes
    back, a limiter built at [t0] with window size [W > 0] and threshold
    [T >= 0] admits, up to its last call at [t_end], at most [T] requests
    for each window from that of [t0] to that of [t_end]. *)
Theorem window_throughput_bound (W : Q) (T : Z) (t0 : Q)
    (readings : list (Q * Q)) :
  0 < W -> (0 <= T)%Z ->
  monotonic t0 (map snd readings) ->
  exists fresh : t,
    __init__ W T t0 = Returned fresh /\
    (Z.of_nat (admissions (fst (calls readings fresh)))
     <= T * (Qfloor (last (map snd readings) t0 / W) - Qfloor (t0 / W) + 1))%Z.
Proof.
  intros HW HT Hmono. rewrite (__init___eq W T t0 HW).
  eexists; split; [reflexivity|].
  set (k0 := Qfloor (t0 / W)). set (fresh := mk W T (inject_Z k0 * W) 0).
  destruct (_get_current_window_bounds t0 (mk W T 0 0) HW) as [(k & _ & Hlo & Hhi) _].
  cbn [window_size] in Hlo, Hhi.
  assert (Ek : k0 = k) by (apply Qfloor_window; assumption). subst k.
  destruct (calls_window_potential readings fresh t0 k0) as (kf & Hkf & Hpot);
    cbn [fresh window_size request_threshold request_count current_window_start];
    try assumption; try reflexivity; try lia.
  cbn [fresh window_size request_threshold request_count] in Hkf, Hpot.
  assert (Hend : (kf <= Qfloor (last (map snd readings) t0 / W))%Z).
  { rewrite <- (Qfloor_Z kf). apply Qfloor_resp_le.
    apply Qle_shift_div_l; assumption. }
  assert (T * kf <= T * Qfloor (last (map snd readings) t0 / W))%Z
    by (apply Z.mul_le_mono_nonneg_l; lia).
  lia.
Qed.

Lemma window_throughput_bound_witness :
  exists fresh : t,
    __init__ 5 2 0 = Returned fresh /\
    (Z.of_nat (admissions
                 (fst (calls [(1, 1); (2, 2); (3, 3); (6, 6); (7, 7); (8, 8)]%Q fresh)))
     <= 2 * (Qfloor ((last (map snd [(1, 1); (2, 2); (3, 3); (6, 6); (7, 7); (8, 8)]) 0 / 5)%Q)
             - Qfloor ((0 / 5)%Q) + 1))%Z.
Proof.
  apply (window_throughput_bound 5 2 0 [(1, 1); (2, 2); (3, 3); (6, 6); (7, 7); (8, 8)]).
  - reflexivity.
  - lia.
  - cbn. repeat split; discriminate.
Defined.

End WindowThroughput.

(** ** Token bucket: rate, polling, bursts *)

Section TokenBucketRate.

Import TokenBucket.

(** One call under the assumptions of a well-formed bucket. *)
Lemma allow_request_account (now cost : Q) (self : t) :
  0 <= bucket_size self -> 0 <= refill_rate self ->
  0 <= tokens self -> last_refill_time self <= now ->
  exists (b : bool) (self' : t),
    allow_request now cost self = (Returned b, self') /\
    bucket_size self' = bucket_size self /\
    refill_rate self' = refill_rate self /\
    last_refill_time self' = now /\
    0 <= tokens self' /\
    (if b then cost else 0) + tokens self'
      <= tokens self + refill_rate self * (now - last_refill_time self).
Proof.
  intros Hcap Hrate Htok Hclock.
  pose proof (refill_level_bounds now self Hcap Hrate Htok Hclock) as [Hlo _].
  rewrite allow_request_refill. cbv zeta.
  rewrite _refill_eq in *. cbn [snd tokens] in *.
  pose proof (min_le_r (bucket_size self)
    (tokens self + (now - last_refill_time self) * refill_rate self)) as Hmin.
  destruct (ge _ cost) eqn:E.
  - apply Qle_bool_iff in E. exists true. eexists. split; [reflexivity|].
    cbn. repeat split; lra.
  - exists false. eexists. split; [reflexivity|].
    cbn. repeat split; lra.
Qed.

Lemma calls_account (requests : list (Q * Q)) :
  forall self : t,
    0 <= bucket_size self -> 0 <= refill_rate self ->
    0 <= tokens self ->
    monotonic (last_refill_time self) (map fst requests) ->
    let self' := snd (calls requests self) in
    0 <= tokens self' /\
    admitted_cost requests (fst (calls requests self)) + tokens self'
      <= tokens self
         + refill_rate self
           * (last (map fst requests) (last_refill_time self)
              - last_refill_time self).
Proof.
  induction requests as [|[now cost] rest IH];
    intros self Hcap Hrate Htok Hmono.
  - cbn [calls map last admitted_cost fst snd]. split; [exact Htok|].
    assert (E : refill_rate self * (last_refill_time self - last_refill_time self) == 0)
      by ring.
    rewrite E. lra.
  - cbn [calls map fst] in *. rewrite last_cons. destruct Hmono as [Hnow Hmono].
    destruct (allow_request_account now cost self Hcap Hrate Htok Hnow)
      as (b & s1 & Hcall & C1 & R1 & L1 & T1 & Hacc).
    rewrite Hcall. specialize (IH s1).
    destruct (calls rest s1) as [rs s2]. cbn [fst snd] in *.
    rewrite C1, R1, L1 in IH.
    destruct (IH Hcap Hrate T1 Hmono) as [Hpos Hrest].
    split; [exact Hpos|].
    assert (Hsum : admitted_cost ((now, cost) :: rest) (Returned b :: rs)
                   == (if b then cost else 0) + admitted_cost rest rs)
      by (destruct b; cbn [admitted_cost]; ring).
    rewrite Hsum.
    assert (Hsplit : refill_rate self * (last (map fst rest) now - last_refill_time self)
                     == refill_rate self * (now - last_refill_time self)
                        + refill_rate self * (last (map fst rest) now - now))
      by ring.
    rewrite Hsplit. lra.
Qed.

(** The rate guarantee of the token bucket, for whole numbers, on which the
    arithmetic of the source is exact.  With a whole capacity and refill
    rate [>= 0], whole clock readings that never go back and whole costs,
    the costs of the requests admitted between construction at [t0] and
    the last call at [t_end] sum to at most
    [capacity + refill_rate * (t_end - t0)]. *)
Theorem token_bucket_rate_bound (capacity rate t0 : Z)
    (requests : list (Z * Z)) :
  (0 <= capacity)%Z -> (0 <= rate)%Z ->
  monotonic (inject_Z t0) (map fst (whole_requests requests)) ->
  exists fresh : t,
    __init__ (inject_Z capacity) (inject_Z rate) (inject_Z t0) = Returned fresh /\
    admitted_cost (whole_requests requests)
                  (fst (calls (whole_requests requests) fresh))
      <= inject_Z capacity
         + inject_Z rate
           * (last (map fst (whole_requests requests)) (inject_Z t0)
              - inject_Z t0).
Proof.
  intros Hcap Hrate Hmono. eexists; split; [reflexivity|].
  assert (Hc : 0 <= inject_Z capacity) by (unfold Qle; simpl; lia).
  assert (Hr : 0 <= inject_Z rate) by (unfold Qle; simpl; lia).
  destruct (calls_account (whole_requests requests)
              (mk (inject_Z capacity) (inject_Z rate) (inject_Z capacity)
                  (inject_Z t0)))
    as [Hpos Hacc]; cbn [bucket_size refill_rate tokens last_refill_time] in *;
    try assumption.
  lra.
Qed.

Lemma token_bucket_rate_bound_witness :
  exists fresh : t,
    __init__ (inject_Z 2) (inject_Z 1) (inject_Z 0) = Returned fresh /\
    admitted_cost (whole_requests [(0, 1); (0, 1); (0, 1); (4, 2)]%Z)
                  (fst (calls (whole_requests [(0, 1); (0, 1); (0, 1); (4, 2)]%Z)
                              fresh))
      <= inject_Z 2
         + inject_Z 1
           * (last (map fst (whole_requests [(0, 1); (0, 1); (0, 1); (4, 2)]%Z))
                   (inject_Z 0)
              - inject_Z 0).
Proof.
  apply (token_bucket_rate_bound 2 1 0 [(0, 1); (0, 1); (0, 1); (4, 2)]%Z).
  - lia.
  - lia.
  - cbn. repeat split; discriminate.
Defined.

End TokenBucketRate.


Section TokenBucketBurst.

Import TokenBucket.

Lemma min_r_eq (a b : Q) : b <= a -> Py.min a b == b.
Proof.
  intros H. unfold Py.min. destruct (lt b a) eqn:E; [reflexivity|].
  apply lt_false_iff in E. apply Qle_antisym; assumption.
Qed.

(** A request that costs more than the bucket holds is rejected, whatever
    the state of the bucket and the time of the call: the refill never
    fills above [bucket_size].  In particular a bucket of size [0] admits
    no request of positive cost. *)
Theorem oversize_request_rejected (self : t) (now cost : Q) :
  bucket_size self < cost ->
  allow_request now cost self = (Returned false, snd (_refill now self)).
Proof.
  intros Hbig. rewrite allow_request_refill. cbv zeta.
  destruct (ge _ cost) eqn:E; [|reflexivity].
  apply Qle_bool_iff in E. rewrite _refill_eq in E. cbn [snd tokens] in E.
  pose proof (min_le_l (bucket_size self)
    (tokens self + (now - last_refill_time self) * refill_rate self)).
  lra.
Qed.

Lemma oversize_request_rejected_witness :
  allow_request 100 6 (mk 5 1 5 0) = (Returned false, snd (_refill 100 (mk 5 1 5 0))).
Proof.
  apply (oversize_request_rejected (mk 5 1 5 0) 100 6). reflexivity.
Defined.

(** The burst a bucket allows.  Requests of one positive cost arriving at
    the instant of the last refill, on a bucket holding [tokens] (at most
    its size), are admitted as long as whole costs fit in [tokens], that is
    [floor(tokens / cost)] times, and rejected from then on. *)
Theorem token_bucket_burst (now cost : Q) (n : nat) :
  0 < cost ->
  forall self : t,
    0 <= tokens self -> tokens self <= bucket_size self ->
    last_refill_time self == now ->
    let fit := Z.to_nat (Qfloor (tokens self / cost)) in
    fst (calls (repeat (now, cost) n) self) =
      repeat (Returned true) (Nat.min n fit)
      ++ repeat (Returned false) (n - fit).
Proof.
  intros Hcost. induction n as [|n IH]; intros self Hlo Hhi Hlast fit.
  - reflexivity.
  - cbn [repeat calls]. rewrite allow_request_refill. cbv zeta.
    set (refilled := snd (_refill now self)).
    assert (Hlevel : tokens refilled == tokens self).
    { subst refilled. rewrite _refill_eq. cbn [snd tokens].
      assert (E : tokens self + (now - last_refill_time self) * refill_rate self
                  == tokens self) by (rewrite Hlast; ring).
      rewrite min_r_eq; [exact E | rewrite E; exact Hhi]. }
    assert (Hsize : bucket_size refilled = bucket_size self) by reflexivity.
    assert (Htime : last_refill_time refilled = now) by reflexivity.
    unfold ge. destruct (Qle_bool cost (tokens refilled)) eqn:E.
    + apply Qle_bool_iff in E. rewrite Hlevel in E.
      match goal with |- context [calls _ ?s] =>
        specialize (IH s); destruct (calls _ s) as [rs s'] end.
      cbn [fst snd tokens bucket_size last_refill_time set_tokens] in *.
      rewrite Htime, Hsize in IH.
      assert (Efloor : Qfloor ((tokens refilled - cost) / cost)
                       = (Qfloor (tokens self / cost) - 1)%Z).
      { rewrite <- (Qfloor_sub_Z (tokens self / cost) 1).
        apply Qfloor_comp. rewrite Hlevel. change (inject_Z 1) with 1. field. lra. }
      assert (Hone : (1 <= Qfloor (tokens self / cost))%Z).
      { rewrite <- (Qfloor_Z 1). apply Qfloor_resp_le.
        change (inject_Z 1) with 1. apply Qle_shift_div_l; lra. }
      rewrite Efloor in IH.
      replace fit with (S (Z.to_nat (Qfloor (tokens self / cost) - 1)))
        by (subst fit; lia).
      cbn [Nat.min Nat.sub repeat app]. f_equal. apply IH.
      * rewrite Hlevel. lra.
      * rewrite Hlevel. lra.
      * reflexivity.
    + assert (Hsmall : tokens self < cost).
      { apply Qnot_le_lt. intros H. rewrite <- Hlevel in H.
        apply Qle_bool_iff in H. congruence. }
      assert (Efloor : Qfloor (tokens self / cost) = 0%Z).
      { apply Qfloor_between; change (inject_Z 0) with 0.
        - apply Qle_shift_div_l; lra.
        - apply Qlt_shift_div_r; lra. }
      specialize (IH refilled). destruct (calls _ refilled) as [rs s'].
      cbn [fst snd] in *. rewrite Hsize, Htime in IH.
      assert (Efloor' : Qfloor (tokens refilled / cost) = 0%Z)
        by (rewrite <- Efloor; apply Qfloor_comp; rewrite Hlevel; reflexivity).
      rewrite Efloor' in IH.
      replace fit with O by (subst fit; lia).
      change (Z.to_nat 0) with O in IH.
      rewrite Nat.min_0_r, Nat.sub_0_r in *. cbn [repeat app]. f_equal.
      apply IH.
      * rewrite Hlevel. exact Hlo.
      * rewrite Hlevel. exact Hhi.
      * reflexivity.
Qed.

Lemma token_bucket_burst_witness :
  fst (calls (repeat (0, 2) 4) (mk 5 1 5 0)) =
    repeat (Returned true) (Nat.min 4 (Z.to_nat (Qfloor (5 / 2))))
    ++ repeat (Returned false) (4 - Z.to_nat (Qfloor (5 / 2))).
Proof.
  apply (token_bucket_burst 0 2 4 ltac:(reflexivity) (mk 5 1 5 0));
    first [discriminate | reflexivity].
Defined.

End TokenBucketBurst.

(** ** Leaking bucket: rate, recovery, empty capacity *)

Section LeakingBucketRate.

Import LeakingBucket.

(** One call: an admission is paid for by a queue slot, a queue slot freed
    by a drain interval. *)
Lemma add_request_account (now stamp : Q) (self : t) :
  0 < outflow_rate self -> last_processed_time self <= now ->
  (Z.of_nat (length (queue self)) <= bucket_size self)%Z ->
  exists (b : bool) (self' : t),
    add_request now stamp self = (Returned b, self') /\
    bucket_size self' = bucket_size self /\
    outflow_rate self' = outflow_rate self /\
    last_processed_time self' <= now /\
    (Z.of_nat (length (queue self')) <= bucket_size self)%Z /\
    inject_Z (if b then 1 else 0) + inject_Z (Z.of_nat (length (queue self)))
      + last_processed_time self * outflow_rate self
    <= inject_Z (Z.of_nat (length (queue self')))
       + last_processed_time self' * outflow_rate self.
Proof.
  intros Hr Hclock Hlen.
  destruct (drain_step now self Hr Hclock) as (Hdrain & Hn & Hle & _).
  set (n := Qfloor ((now - last_processed_time self) * outflow_rate self)) in *.
  pose proof (length_popleft_loop (Z.to_nat n) (queue self)) as Hpop.
  assert (Hadv : (last_processed_time self + inject_Z n / outflow_rate self)
                 * outflow_rate self
                 == last_processed_time self * outflow_rate self + inject_Z n)
    by (field; lra).
  assert (Hfreed : inject_Z (Z.of_nat (length (queue self)))
                   <= inject_Z (Z.of_nat (length (popleft_loop (Z.to_nat n)
                                                               (queue self))))
                      + inject_Z n)
    by (rewrite <- inject_Z_plus, <- Zle_Qle; lia).
  rewrite add_request_drained, Hdrain.
  cbn [bucket_size queue outflow_rate last_processed_time].
  destruct (_ <? _)%Z eqn:E; [apply Z.ltb_lt in E | apply Z.ltb_ge in E].
  - exists true. eexists. split; [reflexivity|].
    cbn [bucket_size queue outflow_rate last_processed_time set_queue].
    rewrite length_app. cbn [length].
    repeat split; try assumption; try lia.
    rewrite Hadv, Nat2Z.inj_add, inject_Z_plus.
    change (inject_Z (Z.of_nat 1)) with 1. change (inject_Z 1) with 1. lra.
  - exists false. eexists. split; [reflexivity|].
    cbn [bucket_size queue outflow_rate last_processed_time].
    repeat split; try assumption; try lia.
    rewrite Hadv. change (inject_Z 0) with 0. lra.
Qed.

Lemma calls_leak_account (readings : list (Q * Q)) :
  forall (self : t) (start : Q),
    0 < outflow_rate self -> last_processed_time self <= start ->
    (Z.of_nat (length (queue self)) <= bucket_size self)%Z ->
    monotonic start (map fst readings) ->
    let self' := snd (calls readings self) in
    last_processed_time self' <= last (map fst readings) start /\
    (Z.of_nat (length (queue self')) <= bucket_size self)%Z /\
    inject_Z (Z.of_nat (admissions (fst (calls readings self))))
      + inject_Z (Z.of_nat (length (queue self)))
      + last_processed_time self * outflow_rate self
    <= inject_Z (Z.of_nat (length (queue self')))
       + last_processed_time self' * outflow_rate self.
Proof.
  induction readings as [|[now stamp] rest IH];
    intros self start Hr Hlast Hlen Hmono.
  - cbn [calls map last admissions fst snd]. repeat split; try assumption.
    change (inject_Z (Z.of_nat 0)) with 0. lra.
  - cbn [calls map fst] in *. rewrite last_cons. destruct Hmono as [Hnow Hmono].
    destruct (add_request_account now stamp self Hr) as
      (b & s1 & Hcall & C1 & R1 & L1 & Q1 & Hacc); [lra | exact Hlen |].
    rewrite Hcall. specialize (IH s1 now).
    destruct (calls rest s1) as [rs s2]. cbn [fst snd] in *.
    rewrite C1, R1 in IH.
    destruct (IH Hr L1 Q1 Hmono) as (Hl & Hq & Hrest).
    split; [exact Hl|]. split; [exact Hq|].
    rewrite admissions_cons, Nat2Z.inj_add, inject_Z_plus.
    replace (Z.of_nat (if b then 1%nat else 0%nat)) with (if b then 1%Z else 0%Z)
      by (destruct b; reflexivity).
    lra.
Qed.

(** The rate guarantee of the leaking bucket, for whole numbers, on which
    the arithmetic of the source is exact.  With capacity [>= 0], a whole
    outflow rate [> 0] and whole clock readings that never go back, the
    requests admitted between construction at [t0] and the last call at
    [t_end] number at most [capacity + outflow_rate * (t_end - t0)]. *)
Theorem leaking_bucket_rate_bound (capacity rate t0 : Z)
    (readings : list (Z * Q)) :
  (0 <= capacity)%Z -> (0 < rate)%Z ->
  monotonic (inject_Z t0) (map fst (whole_readings readings)) ->
  exists fresh : t,
    __init__ capacity (inject_Z rate) (inject_Z t0) = Returned fresh /\
    inject_Z (Z.of_nat (admissions (fst (calls (whole_readings readings) fresh))))
      <= inject_Z capacity
         + inject_Z rate
           * (last (map fst (whole_readings readings)) (inject_Z t0)
              - inject_Z t0).
Proof.
  intros Hcap Hrate Hmono. eexists; split; [reflexivity|].
  assert (Hr : 0 < inject_Z rate) by (unfold Qlt; simpl; lia).
  destruct (calls_leak_account (whole_readings readings)
              (mk capacity (inject_Z rate) [] (inject_Z t0)) (inject_Z t0))
    as (Hl & Hq & Hacc);
    cbn [bucket_size outflow_rate queue last_processed_time length] in *;
    try assumption; try lra; try lia.
  change (inject_Z (Z.of_nat 0)) with 0 in Hacc.
  rewrite Zle_Qle in Hq.
  assert (last_processed_time
            (snd (calls (whole_readings readings)
                        (mk capacity (inject_Z rate) [] (inject_Z t0))))
          * inject_Z rate
          <= last (map fst (whole_readings readings)) (inject_Z t0) * inject_Z rate)
    by (apply Qmult_le_compat_r; lra).
  lra.
Qed.

Lemma leaking_bucket_rate_bound_witness :
  exists fresh : t,
    __init__ 2 (inject_Z 1) (inject_Z 0) = Returned fresh /\
    inject_Z (Z.of_nat (admissions
                (fst (calls (whole_readings [(0%Z, 0); (0%Z, 0); (0%Z, 0); (2%Z, 2)])
                            fresh))))
      <= inject_Z 2
         + inject_Z 1
           * (last (map fst (whole_readings [(0%Z, 0); (0%Z, 0); (0%Z, 0); (2%Z, 2)]))
                   (inject_Z 0)
              - inject_Z 0).
Proof.
  apply (leaking_bucket_rate_bound 2 1 0 [(0%Z, 0); (0%Z, 0); (0%Z, 0); (2%Z, 2)]).
  - lia.
  - lia.
  - cbn. repeat split; discriminate.
Defined.

End LeakingBucketRate.

Section LeakingBucketRecovery.

Import LeakingBucket.

(** Recovery after an idle time.  On a bucket with a positive rate, once
    the clock is [length queue / outflow_rate] or more past
    [last_processed_time], the drain step empties the queue, and with a
    capacity of at least one the request is admitted alone in the queue. *)
Theorem idle_bucket_empties (self : t) (now stamp : Q) :
  0 < outflow_rate self -> last_processed_time self <= now ->
  inject_Z (Z.of_nat (length (queue self)))
    <= (now - last_processed_time self) * outflow_rate self ->
  (exists drained : t,
      _process_queue now self = (Returned tt, drained) /\ queue drained = []) /\
  ((0 < bucket_size self)%Z ->
   exists self' : t,
     add_request now stamp self = (Returned true, self') /\
     queue self' = [stamp]).
Proof.
  intros Hr Hclock Hidle.
  destruct (drain_step now self Hr Hclock) as (Hdrain & Hn & _).
  set (n := Qfloor ((now - last_processed_time self) * outflow_rate self)) in *.
  assert (Hall : (Z.of_nat (length (queue self)) <= n)%Z).
  { rewrite <- (Qfloor_Z (Z.of_nat (length (queue self)))).
    apply Qfloor_resp_le. exact Hidle. }
  assert (Hempty : popleft_loop (Z.to_nat n) (queue self) = []).
  { rewrite popleft_loop_skipn. apply skipn_all2. lia. }
  rewrite Hempty in Hdrain. split.
  - eexists. split; [exact Hdrain | reflexivity].
  - intros Hcap. rewrite add_request_drained, Hdrain.
    cbn [bucket_size queue length Z.of_nat].
    replace (0 <? bucket_size self)%Z with true
      by (symmetry; apply Z.ltb_lt; exact Hcap).
    eexists. split; reflexivity.
Qed.

Lemma idle_bucket_empties_witness :
  (exists drained : t,
      _process_queue 4 (mk 3 1 [0; 0; 1] 1) = (Returned tt, drained) /\
      queue drained = []) /\
  ((0 < 3)%Z ->
   exists self' : t,
     add_request 4 4 (mk 3 1 [0; 0; 1] 1) = (Returned true, self') /\
     queue self' = [4]).
Proof.
  apply (idle_bucket_empties (mk 3 1 [0; 0; 1] 1) 4 4).
  - reflexivity.
  - discriminate.
  - discriminate.
Defined.

(** A bucket whose size is zero or negative admits nothing: with an outflow
    rate other than zero, every call of every run returns [False] and the
    queue stays empty, whatever the clock does. *)
Theorem sizeless_bucket_rejects (capacity : Z) (rate t0 : Q)
    (readings : list (Q * Q)) :
  (capacity <= 0)%Z -> ~ rate == 0 ->
  exists fresh : t,
    __init__ capacity rate t0 = Returned fresh /\
    Forall (eq (Returned false)) (fst (calls readings fresh)) /\
    queue (snd (calls readings fresh)) = [].
Proof.
  intros Hcap Hrate. eexists; split; [reflexivity|].
  assert (Hr : Qeq_bool rate 0 = false).
  { destruct (Qeq_bool rate 0) eqn:E; [|reflexivity].
    apply Qeq_bool_eq in E. contradiction. }
  generalize t0. clear t0.
  induction readings as [|[now stamp] rest IH]; intros last.
  - split; [constructor | reflexivity].
  - cbn [calls]. rewrite add_request_drained, _process_queue_eq by exact Hr.
    cbv zeta. cbn [bucket_size queue outflow_rate last_processed_time].
    rewrite popleft_loop_nil. cbn [length Z.of_nat].
    replace (0 <? capacity)%Z with false by (symmetry; apply Z.ltb_ge; exact Hcap).
    match goal with |- context [calls rest (mk _ _ _ ?l)] =>
      specialize (IH l); destruct (calls rest (mk capacity rate [] l)) as [rs s'] end.
    cbn [fst snd] in *. destruct IH as [Hall Hq].
    split; [constructor; [reflexivity | exact Hall] | exact Hq].
Qed.

Lemma sizeless_bucket_rejects_witness :
  exists fresh : t,
    __init__ 0 1 0 = Returned fresh /\
    Forall (eq (Returned false)) (fst (calls [(0, 0); (10, 10)] fresh)) /\
    queue (snd (calls [(0, 0); (10, 10)] fresh)) = [].
Proof.
  apply (sizeless_bucket_rejects 0 1 0 [(0, 0); (10, 10)]).
  - lia.
  - discriminate.
Defined.

End LeakingBucketRecovery.

